(** * fizteh-radio: the schedule service and the segment model

    A shallow embedding of [internal/models] (the [Segment] and [Media]
    records, [TimeFormat], [Segment.MarshalJSON]) and of
    [internal/service/schedule] ([ScheduleCut], [NewSegment],
    [DeleteSegment]), followed by the properties of the schedule engine.

    Conventions of the embedding:
    - a Go pointer field [*T] is an [option T]; dereferencing [None] is a
      run-time panic, which the engine monad records as [Panicked];
    - a Go result pair [(v, err)] returned by the service is kept as a pair
      [(v, option error)], so that what is returned next to an error can be
      stated;
    - the storage collaborators are interfaces in the source; here they are
      records of operations over an arbitrary store state, and every
      property of the engine is proved for every implementation;
    - every call to a collaborator and every send on a channel is logged as
      an [Event], in program order. *)

From Stdlib Require Import ZArith List String Ascii Bool Lia.
Import ListNotations.
Local Open Scope string_scope.
Local Open Scope list_scope.
Local Open Scope Z_scope.

(** ** Time

    The part of Go's standard package [time] that the embedded code
    uses: durations, instants with [Add] and [==], and [Format] for the
    layout elements of [models.TimeFormat]. *)

Module time.

(** [time.Duration] is an [int64] count of nanoseconds. *)
Definition Duration := Z.

(** [time.Time]: an instant together with the zone it is displayed in.
    The instant is kept as nanoseconds since the Unix epoch, the location
    as its offset (seconds east of UTC) at that instant; a monotonic
    clock reading, which a time decoded from a request or read from the
    store does not carry, is not represented.

    Go's [==] on [time.Time] compares the representation: the instant,
    and the location as a pointer.  [eqb] compares the instant and the
    offset.  Two times that Go's [==] identifies are identified by [eqb];
    two times that differ in the instant are told apart by both.  Two
    times at the same instant in two locations of the same offset are
    identified by [eqb] alone. *)
Record Time := mkTime { unixNano : Z; zoneOffset : Z }.

Definition eqb (t u : Time) : bool :=
  (unixNano t =? unixNano u) && (zoneOffset t =? zoneOffset u).

(** [t.Add(d)] moves the instant and keeps the location; the offset is
    kept with it, as for a location of fixed offset. *)
Definition Add (t : Time) (d : Duration) : Time :=
  mkTime (unixNano t + d) (zoneOffset t).

Definition Second : Duration := 1000000000.

(** *** Broken-down time, as [Time.Format] computes it *)

Definition Nanosecond (t : Time) : Z := unixNano t mod Second.

(** Seconds since the epoch, shifted to the wall clock of the zone. *)
Definition wallSeconds (t : Time) : Z := unixNano t / Second + zoneOffset t.

(** Proleptic Gregorian date of a day number counted from 1970-01-01. *)
Definition civil (days : Z) : Z * Z * Z :=
  let z := days + 719468 in
  let era := z / 146097 in
  let doe := z - era * 146097 in
  let yoe := (doe - doe / 1460 + doe / 36524 - doe / 146096) / 365 in
  let doy := doe - (365 * yoe + yoe / 4 - yoe / 100) in
  let mp := (5 * doy + 2) / 153 in
  let d := doy - (153 * mp + 2) / 5 + 1 in
  let m := if mp <? 10 then mp + 3 else mp - 9 in
  let y := yoe + era * 400 in
  (if m <=? 2 then y + 1 else y, m, d).

Definition Year (t : Time) : Z := fst (fst (civil (wallSeconds t / 86400))).
Definition Month (t : Time) : Z := snd (fst (civil (wallSeconds t / 86400))).
Definition Day (t : Time) : Z := snd (civil (wallSeconds t / 86400)).
Definition Hour (t : Time) : Z := (wallSeconds t mod 86400) / 3600.
Definition Minute (t : Time) : Z := (wallSeconds t mod 3600) / 60.
Definition Sec (t : Time) : Z := wallSeconds t mod 60.

(** *** Decimal rendering *)

Definition digitChar (d : Z) : ascii := ascii_of_nat (48 + Z.to_nat d).

(** The [n] low decimal digits of [x], most significant first. *)
Fixpoint lowDigits (n : nat) (x : Z) : list ascii :=
  match n with
  | O => []
  | S k => lowDigits k (x / 10) ++ [digitChar (x mod 10)]
  end.

(** Number of decimal digits of a non-negative [x] (one for zero). *)
Fixpoint countDigits (fuel : nat) (x : Z) : nat :=
  match fuel with
  | O => 1%nat
  | S k => if x <? 10 then 1%nat else S (countDigits k (x / 10))
  end.

Definition digitsLen (x : Z) : nat := countDigits (Z.to_nat (Z.log2 x)) x.

(** [appendInt]: the decimal form of [x], zero-padded to [width], with a
    leading minus sign for a negative [x]. *)
Definition appendInt (x : Z) (width : nat) : list ascii :=
  let u := Z.abs x in
  (if x <? 0 then ["-"%char] else []) ++ lowDigits (Nat.max width (digitsLen u)) u.

Fixpoint trimRight (c : ascii) (b : list ascii) : list ascii :=
  match b with
  | [] => []
  | x :: r =>
      match trimRight c r with
      | [] => if Ascii.eqb x c then [] else [x]
      | r' => x :: r'
      end
  end.

(** [appendNano] for the layout element [.999999999]: nothing at all for
    a zero nanosecond, otherwise the dot and the nine digits with the
    trailing zeros cut. *)
Definition appendNano9 (nanosec : Z) : list ascii :=
  if nanosec =? 0 then []
  else trimRight "."%char (trimRight "0"%char ("."%char :: lowDigits 9 nanosec)).

(** The layout element [-07:00]: sign, hours, colon, minutes; a zero
    offset is written [+00:00]. *)
Definition appendNumColonTZ (offset : Z) : list ascii :=
  let zone := Z.quot offset 60 in
  (if zone <? 0 then ["-"%char] else ["+"%char])
    ++ appendInt (Z.quot (Z.abs zone) 60) 2
    ++ [":"%char]
    ++ appendInt (Z.rem (Z.abs zone) 60) 2.

(** *** Layouts *)

(** The layout elements that [Format] recognises here. *)
Inductive std :=
| stdLongYear | stdZeroMonth | stdZeroDay | stdHour | stdZeroMinute
| stdZeroSecond | stdFracSecond9 | stdNumColonTZ.

Definition stdChunks : list (string * std) :=
  [ ("2006", stdLongYear); ("01", stdZeroMonth); ("02", stdZeroDay);
    ("15", stdHour); ("04", stdZeroMinute); ("05", stdZeroSecond);
    (".999999999", stdFracSecond9); ("-07:00", stdNumColonTZ) ].

Fixpoint nextStdChunk (table : list (string * std)) (layout : string)
  : option (std * nat) :=
  match table with
  | [] => None
  | (p, s) :: rest =>
      if String.prefix p layout then Some (s, String.length p)
      else nextStdChunk rest layout
  end.

Definition appendStd (s : std) (t : Time) : list ascii :=
  match s with
  | stdLongYear => appendInt (Year t) 4
  | stdZeroMonth => appendInt (Month t) 2
  | stdZeroDay => appendInt (Day t) 2
  | stdHour => appendInt (Hour t) 2
  | stdZeroMinute => appendInt (Minute t) 2
  | stdZeroSecond => appendInt (Sec t) 2
  | stdFracSecond9 => appendNano9 (Nanosecond t)
  | stdNumColonTZ => appendNumColonTZ (zoneOffset t)
  end.

(** The loop of [Format] over the layout, [render] giving the text of
    each layout element; [skip] counts the characters of the element
    being replaced that are still to be passed over. *)
Fixpoint appendFormat (render : std -> list ascii) (skip : nat) (layout : string)
  : list ascii :=
  match layout with
  | EmptyString => []
  | String c rest =>
      match skip with
      | S k => appendFormat render k rest
      | O =>
          match nextStdChunk stdChunks layout with
          | Some (s, n) => render s ++ appendFormat render (Nat.pred n) rest
          | None => c :: appendFormat render O rest
          end
      end
  end.

Definition Format (t : Time) (layout : string) : string :=
  string_of_list_ascii (appendFormat (fun s => appendStd s t) O layout).

(** The date and the time of day of [t], as written for the layout
    [2006-01-02T15:04:05]. *)
Definition secondsText (t : Time) : list ascii :=
  appendInt (Year t) 4 ++ "-"%char
  :: appendInt (Month t) 2 ++ "-"%char
  :: appendInt (Day t) 2 ++ "T"%char
  :: appendInt (Hour t) 2 ++ ":"%char
  :: appendInt (Minute t) 2 ++ ":"%char
  :: appendInt (Sec t) 2.

End time.

(** ** Run-time outcomes and errors *)

(** A Go call either returns or panics (here: a nil pointer dereference). *)
Inductive Outcome (A : Type) : Type :=
| Returned (a : A)
| Panicked.
Arguments Returned {A} a.
Arguments Panicked {A}.

(** Go [error] values.  The sentinels of packages [storage] and [service]
    are declared outside the files embedded here; they are taken as
    distinct constants.  [fmt_Errorf op err] is
    [fmt.Errorf("%s: %w", op, err)], which wraps [err]. *)
Inductive error : Type :=
| storage_ErrMediaNotFound
| storage_ErrSegmentNotFound
| service_ErrMediaNotFound
| service_ErrCutOutOfBounds
| service_ErrBeginAfterStop
| service_ErrSegmentIntersection
| service_ErrSegmentNotFound
| errors_New (text : string)
| fmt_Errorf (op : string) (err : error).

Definition error_eq_dec (a b : error) : {a = b} + {a <> b}.
Proof. decide equality; apply string_dec. Defined.

(** [errors.Is]: [target] occurs somewhere on the chain of wrapped errors. *)
Fixpoint errors_Is (err target : error) : bool :=
  if error_eq_dec err target then true
  else match err with
       | fmt_Errorf _ inner => errors_Is inner target
       | _ => false
       end.

(** What a storage call hands back: a value, or an error. *)
Inductive result (A : Type) : Type :=
| Ok (a : A)
| Err (e : error).
Arguments Ok {A} a.
Arguments Err {A} e.

(** ** Package models *)

Module models.

(** Field names that several structs share carry the struct's name. *)
Record TagType := mkTagType { TagType_ID : Z; TagType_Name : string }.

Record Tag := mkTag { Tag_ID : Z; Tag_Name : string; Tag_Type : TagType }.

Record Media := mkMedia {
  Media_ID : option Z;
  Media_Name : option string;
  Author : option string;
  Duration : option time.Duration;
  SourceID : option Z;
  Tags : list Tag
}.

Record Segment := mkSegment {
  ID : option Z;
  MediaID : option Z;
  Start : option time.Time;
  BeginCut : option time.Duration;
  StopCut : option time.Duration;
  Protected : bool
}.

Definition setProtected (s : Segment) (p : bool) : Segment :=
  mkSegment (ID s) (MediaID s) (Start s) (BeginCut s) (StopCut s) p.

Definition TimeFormat : string := "2006-01-02T15:04:05.999999999-07:00".

(** Modelled from the spec: [Segment.End] is called by the schedule
    service but is not among the embedded sources; the data model gives
    the derived value [end = start + (stopCut - beginCut)].  It reads
    through the three pointers, so it panics when one of them is nil. *)
Definition End (s : Segment) : Outcome time.Time :=
  match Start s, StopCut s, BeginCut s with
  | Some start, Some stopCut, Some beginCut =>
      Returned (time.Add start (stopCut - beginCut))
  | _, _, _ => Panicked
  end.

(** *** JSON encoding *)

Inductive JSONValue :=
| JNull
| JNumber (n : Z)
| JBool (b : bool)
| JString (s : string).

Definition jsonInt (p : option Z) : JSONValue :=
  match p with Some n => JNumber n | None => JNull end.

Definition quote : string := String (ascii_of_nat 34) EmptyString.

Definition renderValue (v : JSONValue) : string :=
  match v with
  | JNull => "null"
  | JNumber n => string_of_list_ascii (time.appendInt n 1)
  | JBool true => "true"
  | JBool false => "false"
  | JString s => String.concat EmptyString [quote; s; quote]
  end.

Definition renderField (kv : string * JSONValue) : string :=
  String.concat EmptyString [quote; fst kv; quote; ":"; renderValue (snd kv)].

(** [json.Marshal] of the anonymous struct of [MarshalJSON]: the fields
    promoted from the embedded [segmentJSON] in declaration order, the
    promoted [start] being hidden by the outer field [Time], which
    carries the same JSON name at a lesser depth and comes last. *)
Definition marshalFields (s : Segment) (Time : string) : list (string * JSONValue) :=
  [ ("id", jsonInt (ID s));
    ("mediaID", jsonInt (MediaID s));
    ("beginCut", jsonInt (BeginCut s));
    ("stopCut", jsonInt (StopCut s));
    ("protected", JBool (Protected s));
    ("start", JString Time) ].

Definition json_Marshal (fs : list (string * JSONValue)) : string :=
  String.concat EmptyString ["{"; String.concat "," (List.map renderField fs); "}"].

(** [s.Start.Format] has a value receiver: a nil [Start] panics. *)
Definition MarshalJSON (s : Segment) : Outcome (string * option error) :=
  match Start s with
  | None => Panicked
  | Some start =>
      Returned (json_Marshal (marshalFields s (time.Format start TimeFormat)), None)
  end.

(** The member of the encoded object that carries the start. *)
Definition startMember (s : Segment) : Outcome string :=
  match Start s with
  | None => Panicked
  | Some start =>
      match List.find (fun kv => String.eqb (fst kv) "start")
                      (marshalFields s (time.Format start TimeFormat)) with
      | Some (_, JString v) => Returned v
      | _ => Panicked
      end
  end.

End models.

(** ** Shapes of serialized timestamps *)

Module shape.

Definition isDigit (c : ascii) : bool :=
  let n := nat_of_ascii c in (48 <=? n)%nat && (n <=? 57)%nat.

(** One element of a shape: a digit, a given character, a sign, or a run
    of one or more digits. *)
Inductive pat := D | C (c : ascii) | Sign | Digits.

Fixpoint matches (p : list pat) (s : list ascii) {struct s} : bool :=
  match p, s with
  | [], [] => true
  | [], _ :: _ => false
  | _ :: _, [] => false
  | D :: p', c :: s' => isDigit c && matches p' s'
  | C x :: p', c :: s' => Ascii.eqb x c && matches p' s'
  | Sign :: p', c :: s' =>
      (Ascii.eqb c "+" || Ascii.eqb c "-") && matches p' s'
  | Digits :: p', c :: s' =>
      isDigit c && (matches (Digits :: p') s' || matches p' s')
  end.

(** [YYYY-MM-DDThh:mm:ss] *)
Definition seconds : list pat :=
  [D; D; D; D; C "-"; D; D; C "-"; D; D; C "T"; D; D; C ":"; D; D; C ":"; D; D].

(** [+hh:mm] or [-hh:mm] *)
Definition zone : list pat := [Sign; D; D; C ":"; D; D].

(** [YYYY-MM-DDThh:mm:ss.ffffff+hh:mm], six fraction digits. *)
Definition microseconds : list pat :=
  seconds ++ [C "."; D; D; D; D; D; D] ++ zone.

(** The same with any number of fraction digits, at least one. *)
Definition withFraction : list pat := seconds ++ [C "."; Digits] ++ zone.

(** No fractional part. *)
Definition withoutFraction : list pat := seconds ++ zone.

Definition hasShape (p : list pat) (s : string) : bool :=
  matches p (list_ascii_of_string s).

End shape.

(** ** Package service/schedule *)

Module schedule.

Import models.

(** What the engine does to the outside world, in program order: calls
    to the two storages and sends on the two channels. *)
Inductive Event : Type :=
| CallMedia (id : Z)
| CallScheduleCut (start stop : time.Time)
| CallIsSegmentProtected (id : Z)
| CallSaveSegment (segment : Segment)
| CallDeleteSegment (id : Z)
| CallProtectSegment (id : Z)
| SendAllSegments (segment : Segment)
| NotifyProtected.

(** The [ScheduleStorage] interface over a store state [St], with the
    operations that the embedded functions call.  The two queries read
    the store; the three commands may change it, also when they fail. *)
Record ScheduleStorage (St : Type) : Type := {
  sch_ScheduleCut : time.Time -> time.Time -> St -> result (list Segment);
  sch_SaveSegment : Segment -> St -> result Z * St;
  sch_DeleteSegment : Z -> St -> option error * St;
  sch_ProtectSegment : Z -> St -> option error * St;
  sch_IsSegmentProtected : Z -> St -> result bool
}.
Arguments sch_ScheduleCut {St}.
Arguments sch_SaveSegment {St}.
Arguments sch_DeleteSegment {St}.
Arguments sch_ProtectSegment {St}.
Arguments sch_IsSegmentProtected {St}.

(** The [MediaStorage] interface. *)
Record MediaStorage (St : Type) : Type := {
  med_Media : Z -> St -> result Media
}.
Arguments med_Media {St}.

Section Engine.

Context {St : Type}.
Variable schStorage : ScheduleStorage St.
Variable mediaStorage : MediaStorage St.

(** *** The engine monad: store state in, outcome, store state and
    emitted events out. *)

Definition M (A : Type) : Type := St -> Outcome A * St * list Event.

Definition ret {A} (a : A) : M A := fun st => (Returned a, st, []).

Definition bind {A B} (m : M A) (k : A -> M B) : M B :=
  fun st =>
    match m st with
    | (Returned a, st1, t1) =>
        match k a st1 with
        | (r, st2, t2) => (r, st2, t1 ++ t2)
        end
    | (Panicked, st1, t1) => (Panicked, st1, t1)
    end.

Notation "x <- m ;; k" := (bind m (fun x => k))
  (at level 100, m at next level, right associativity).

Definition emit (e : Event) : M unit := fun st => (Returned tt, st, [e]).

(** [*p] *)
Definition deref {A} (p : option A) : M A :=
  fun st => match p with
            | Some a => (Returned a, st, [])
            | None => (Panicked, st, [])
            end.

Definition lift {A} (o : Outcome A) : M A := fun st => (o, st, []).

(** Calls through the interfaces. *)
Definition storage_Media (id : Z) : M (result Media) :=
  fun st => (Returned (med_Media mediaStorage id st), st, [CallMedia id]).

Definition storage_ScheduleCut (start stop : time.Time) : M (result (list Segment)) :=
  fun st => (Returned (sch_ScheduleCut schStorage start stop st), st,
             [CallScheduleCut start stop]).

Definition storage_IsSegmentProtected (id : Z) : M (result bool) :=
  fun st => (Returned (sch_IsSegmentProtected schStorage id st), st,
             [CallIsSegmentProtected id]).

Definition storage_SaveSegment (segment : Segment) : M (result Z) :=
  fun st => let (r, st') := sch_SaveSegment schStorage segment st in
            (Returned r, st', [CallSaveSegment segment]).

Definition storage_DeleteSegment (id : Z) : M (option error) :=
  fun st => let (r, st') := sch_DeleteSegment schStorage id st in
            (Returned r, st', [CallDeleteSegment id]).

Definition storage_ProtectSegment (id : Z) : M (option error) :=
  fun st => let (r, st') := sch_ProtectSegment schStorage id st in
            (Returned r, st', [CallProtectSegment id]).

(** Modelled from the spec: [chans.Send] and [chans.Notify] of
    [internal/lib/utils/channels] are not among the embedded sources;
    the spec describes them as one-way sends on the all-segments sink
    and on the protection-changed sink. *)
Definition chans_Send (segment : Segment) : M unit := emit (SendAllSegments segment).
Definition chans_Notify : M unit := emit NotifyProtected.

(** *** ScheduleCut *)

Definition opScheduleCut : string := "Schedule.ScheduleCut".
Definition opNewSegment : string := "Schedule.NewSegment".
Definition opDeleteSegment : string := "Schedule.DeleteSegment".

(** The loop [for i, segment := range segments]: [Err] is the early
    return from inside the loop, [Ok] the slice with the flags written. *)
Fixpoint ScheduleCut_range (segments : list Segment) : M (result (list Segment)) :=
  match segments with
  | [] => ret (Ok [])
  | segment :: rest =>
      id <- deref (ID segment) ;;
      r <- storage_IsSegmentProtected id ;;
      match r with
      | Err err => ret (Err err)
      | Ok isProt =>
          r' <- ScheduleCut_range rest ;;
          match r' with
          | Err err => ret (Err err)
          | Ok rest' => ret (Ok (setProtected segment isProt :: rest'))
          end
      end
  end.

Definition ScheduleCut (start stop : time.Time) : M (list Segment * option error) :=
  r <- storage_ScheduleCut start stop ;;
  match r with
  | Err err => ret ([], Some (fmt_Errorf opScheduleCut err))
  | Ok segments =>
      r' <- ScheduleCut_range segments ;;
      match r' with
      | Err err => ret ([], Some (fmt_Errorf opScheduleCut err))
      | Ok segments' => ret (segments', None)
      end
  end.

(** *** DeleteSegment *)

Definition DeleteSegment (id : Z) : M (option error) :=
  r <- storage_IsSegmentProtected id ;;
  match r with
  | Err err =>
      if errors_Is err storage_ErrSegmentNotFound
      then ret (Some service_ErrSegmentNotFound)
      else ret (Some (fmt_Errorf opDeleteSegment err))
  | Ok isProt =>
      r' <- storage_DeleteSegment id ;;
      match r' with
      | Some err =>
          if errors_Is err storage_ErrSegmentNotFound
          then ret (Some service_ErrSegmentNotFound)
          else ret (Some (fmt_Errorf opDeleteSegment err))
      | None =>
          _ <- (if isProt : bool then chans_Notify else ret tt) ;;
          ret None
      end
  end.

(** *** NewSegment *)

(** The loop over the intersected segments ("Delete them all"):
    [None] when the loop runs to its end, [Some err] for the early
    return.  [start] is [*segment.Start] of the new segment. *)
Fixpoint NewSegment_range (start : time.Time) (res : list Segment) : M (option error) :=
  match res with
  | [] => ret None
  | segm :: rest =>
      segmEnd <- lift (End segm) ;;
      skip <- (if time.eqb segmEnd start then ret true
               else (segmStart <- deref (Start segm) ;;
                     segmEnd' <- lift (End segm) ;;
                     ret (time.eqb segmStart segmEnd'))) ;;
      if skip : bool then NewSegment_range start rest
      else
        id <- deref (ID segm) ;;
        r <- DeleteSegment id ;;
        match r with
        | None => NewSegment_range start rest
        | Some err =>
            if errors_Is err service_ErrSegmentNotFound
            then NewSegment_range start rest
            else ret (Some (fmt_Errorf opNewSegment err))
        end
  end.

(** The disjunction of the cut check, with Go's left-to-right,
    short-circuit evaluation of [||]. *)
Definition cutOutOfBounds (media : Media) (segment : Segment) : M bool :=
  duration <- deref (Duration media) ;;
  stopCut <- deref (StopCut segment) ;;
  if duration <? stopCut then ret true
  else
    beginCut <- deref (BeginCut segment) ;;
    ret ((duration <? beginCut) || (beginCut <? 0) || (stopCut <? 0))%bool.

(** [slices.IndexFunc(res, func(s) bool { return s.Protected })],
    returning the element found. *)
Definition firstProtected (res : list Segment) : option Segment :=
  List.find Protected res.

(** Lines 224-295 of the source: what [NewSegment] does once the
    overlap query has returned [res] without an error. *)
Definition NewSegment_place (segment : Segment) (start : time.Time)
           (res : list Segment) : M (Z * option error) :=
  if negb (Protected segment) then
    if (0 <? Z.of_nat (List.length res)) then
      ret (0, Some service_ErrSegmentIntersection)
    else
      _ <- chans_Send segment ;;
      saved <- storage_SaveSegment segment ;;
      match saved with
      | Err err => ret (0, Some (fmt_Errorf opNewSegment err))
      | Ok id => ret (id, None)
      end
  else
    match firstProtected res with
    | Some found =>
        (* the log line prints the found segment's start and end *)
        _ <- deref (Start found) ;;
        _ <- lift (End found) ;;
        ret (0, Some service_ErrSegmentIntersection)
    | None =>
        cleared <- NewSegment_range start res ;;
        match cleared with
        | Some err => ret (0, Some err)
        | None =>
            saved <- storage_SaveSegment segment ;;
            match saved with
            | Err err => ret (0, Some (fmt_Errorf opNewSegment err))
            | Ok id =>
                protected <- storage_ProtectSegment id ;;
                match protected with
                | Some err => ret (0, Some (fmt_Errorf opNewSegment err))
                | None =>
                    _ <- chans_Notify ;;
                    _ <- chans_Send segment ;;
                    ret (id, None)
                end
            end
        end
    end.

(** Lines 179-222, then [NewSegment_place]. *)
Definition NewSegment (segment : Segment) : M (Z * option error) :=
  mediaID <- deref (MediaID segment) ;;
  r <- storage_Media mediaID ;;
  match r with
  | Err err =>
      if errors_Is err storage_ErrMediaNotFound
      then ret (0, Some service_ErrMediaNotFound)
      else ret (0, Some (fmt_Errorf opNewSegment err))
  | Ok media =>
      bad <- cutOutOfBounds media segment ;;
      if bad : bool then
        (* the log line reads both cuts *)
        _ <- deref (BeginCut segment) ;;
        _ <- deref (StopCut segment) ;;
        ret (0, Some service_ErrCutOutOfBounds)
      else
        beginCut <- deref (BeginCut segment) ;;
        stopCut <- deref (StopCut segment) ;;
        if beginCut >? stopCut then ret (0, Some service_ErrBeginAfterStop)
        else
          start <- deref (Start segment) ;;
          stop <- lift (End segment) ;;
          cut <- ScheduleCut start stop ;;
          match cut with
          | (_, Some err) => ret (0, Some (fmt_Errorf opNewSegment err))
          | (res, None) => NewSegment_place segment start res
          end
  end.

(** *** Vocabulary of the properties *)

(** The request [segment] passes the media lookup and the cut check in
    store [st], and its overlap query, over [start, stop], returns
    [res] without an error. *)
Definition intersected (st : St) (segment : Segment)
           (start stop : time.Time) (res : list Segment) : Prop :=
  exists mediaID media duration beginCut stopCut st' t,
    MediaID segment = Some mediaID
    /\ med_Media mediaStorage mediaID st = Ok media
    /\ Duration media = Some duration
    /\ BeginCut segment = Some beginCut
    /\ StopCut segment = Some stopCut
    /\ 0 <= beginCut <= stopCut
    /\ stopCut <= duration
    /\ Start segment = Some start
    /\ stop = time.Add start (stopCut - beginCut)
    /\ ScheduleCut start stop st = (Returned (res, None), st', t).



End Engine.

(** Events by kind. *)
Definition isQuery (e : Event) : bool :=
  match e with
  | CallMedia _ | CallScheduleCut _ _ | CallIsSegmentProtected _ => true
  | _ => false
  end.

Definition isInsertion (e : Event) : bool :=
  match e with
  | CallSaveSegment _ | CallProtectSegment _ | SendAllSegments _ => true
  | _ => false
  end.

Definition isNotify (e : Event) : bool :=
  match e with NotifyProtected => true | _ => false end.

(** No protection-changed signal follows a published payload. *)
Fixpoint signalsFirst (t : list Event) : bool :=
  match t with
  | [] => true
  | SendAllSegments _ :: rest => negb (existsb isNotify rest) && signalsFirst rest
  | _ :: rest => signalsFirst rest
  end.

(** A stored segment with its identifier and its three time fields set. *)
Definition populated (s : Segment) : Prop :=
  ID s <> None /\ Start s <> None /\ BeginCut s <> None /\ StopCut s <> None.

(** [a] and [b] touch at a boundary: one ends where the other starts. *)
Definition adjacent (a b : Segment) : Prop :=
  (exists t, End a = Returned t /\ Start b = Some t)
  \/ (exists t, End b = Returned t /\ Start a = Some t).

End schedule.

(** ** An in-memory store

    An implementation of both storage interfaces on lists, on which the
    engine can be run.  Its range query reports every stored segment whose
    closed interval meets the closed query interval, so that a segment
    which only touches the queried interval is reported as well.  Each of
    the three fault fields, when set, makes the corresponding call fail. *)

Module memstore.

Import models.

Record Store := mkStore {
  medias : list Media;
  rows : list Segment;
  protectedIDs : list Z;
  nextID : Z;
  cutFault : option error;
  protFault : option error;
  saveFault : option error
}.

Definition hasID (id : Z) (s : Segment) : bool :=
  match ID s with Some i => i =? id | None => false end.

Definition meets (start stop : time.Time) (s : Segment) : bool :=
  match Start s, End s with
  | Some b, Returned e =>
      (time.unixNano b <=? time.unixNano stop)
      && (time.unixNano start <=? time.unixNano e)
  | _, _ => false
  end.

Definition Media (id : Z) (st : Store) : result models.Media :=
  match List.find (fun m => match Media_ID m with Some i => i =? id | None => false end)
                  (medias st) with
  | Some m => Ok m
  | None => Err storage_ErrMediaNotFound
  end.

Definition ScheduleCut (start stop : time.Time) (st : Store) : result (list Segment) :=
  match cutFault st with
  | Some e => Err e
  | None => Ok (List.filter (meets start stop) (rows st))
  end.

Definition IsSegmentProtected (id : Z) (st : Store) : result bool :=
  match protFault st with
  | Some e => Err e
  | None =>
      if List.existsb (hasID id) (rows st)
      then Ok (List.existsb (Z.eqb id) (protectedIDs st))
      else Err storage_ErrSegmentNotFound
  end.

Definition SaveSegment (s : Segment) (st : Store) : result Z * Store :=
  match saveFault st with
  | Some e => (Err e, st)
  | None =>
      (Ok (nextID st),
       mkStore (medias st)
               (rows st ++ [mkSegment (Some (nextID st)) (MediaID s) (Start s)
                                      (BeginCut s) (StopCut s) false])
               (protectedIDs st) (nextID st + 1)
               (cutFault st) (protFault st) (saveFault st))
  end.

Definition DeleteSegment (id : Z) (st : Store) : option error * Store :=
  if List.existsb (hasID id) (rows st)
  then (None,
        mkStore (medias st)
                (List.filter (fun s => negb (hasID id s)) (rows st))
                (List.filter (fun i => negb (i =? id)) (protectedIDs st))
                (nextID st) (cutFault st) (protFault st) (saveFault st))
  else (Some storage_ErrSegmentNotFound, st).

Definition ProtectSegment (id : Z) (st : Store) : option error * Store :=
  (None,
   mkStore (medias st) (rows st) (id :: protectedIDs st) (nextID st)
           (cutFault st) (protFault st) (saveFault st)).

Definition schStorage : schedule.ScheduleStorage Store :=
  {| schedule.sch_ScheduleCut := ScheduleCut;
     schedule.sch_SaveSegment := SaveSegment;
     schedule.sch_DeleteSegment := DeleteSegment;
     schedule.sch_ProtectSegment := ProtectSegment;
     schedule.sch_IsSegmentProtected := IsSegmentProtected |}.

Definition mediaStorage : schedule.MediaStorage Store :=
  {| schedule.med_Media := Media |}.

(** The engine on this store. *)
Definition NewSegment := schedule.NewSegment schStorage mediaStorage.
Definition DeleteSegment_ := schedule.DeleteSegment schStorage.
Definition ScheduleCut_ := schedule.ScheduleCut schStorage.

(** *** Fixtures: media 1 lasts 300 s; times are in UTC. *)

Definition sec (n : Z) : Z := n * time.Second.
Definition at_ (n : Z) : time.Time := time.mkTime (sec n) 0.

Definition media1 : models.Media :=
  mkMedia (Some 1) (Some "jingle") (Some "radio") (Some (sec 300)) (Some 1) [].

Definition request (start len : Z) (prot : bool) : Segment :=
  mkSegment None (Some 1) (Some (at_ start)) (Some 0) (Some (sec len)) prot.

Definition stored (id start len : Z) : Segment :=
  mkSegment (Some id) (Some 1) (Some (at_ start)) (Some 0) (Some (sec len)) false.

Definition store (segments : list Segment) (prot : list Z) (next : Z) : Store :=
  mkStore [media1] segments prot next None None None.

Definition emptyStore : Store := store [] [] 1.
Definition emptyStore_next (next : Z) : Store := store [] [] next.

Definition segmentA : Segment := stored 1 0 60.

(** The schedule holds A = [0 s, 60 s], unprotected. *)
Definition scheduleA : Store := store [segmentA] [] 2.

(** The schedule holds A, protected. *)
Definition scheduleAprotected : Store := store [segmentA] [1] 2.

(** The schedule holds B = [10 s, 15 s], unprotected. *)
Definition segmentB : Segment := stored 1 10 5.
Definition scheduleB : Store := store [segmentB] [] 2.

(** An empty schedule on a store that cannot save. *)
Definition diskFull : error := errors_New "disk full".
Definition readOnlyStore : Store :=
  mkStore [media1] [] [] 1 None None (Some diskFull).

(** The schedule holds A on a store whose range query fails. *)
Definition connectionLost : error := errors_New "connection lost".
Definition unreachableStore : Store :=
  mkStore [media1] [segmentA] [] 2 (Some connectionLost) None None.

(** A segment that starts on a whole second, at the epoch, in UTC, and
    one that starts half a second past 2023-11-15 01:13:20 at UTC+3. *)
Definition wholeSecond : Segment := request 0 60 false.
Definition halfPast : time.Time := time.mkTime 1700000000500000000 10800.
Definition halfSecond : Segment :=
  mkSegment (Some 7) (Some 1) (Some halfPast) (Some 0) (Some (sec 60)) true.

(** The schedule holds A on a store whose protection fetch fails. *)
Definition flagsUnreadable : Store :=
  mkStore [media1] [segmentA] [] 2 None (Some connectionLost) None.

End memstore.

(** ** Package service/schedule, the remaining methods *)

Module schedule_rest.

Import schedule.

(** The two methods of the [ScheduleStorage] interface that [Segment] and
    [ClearSchedule] call and the functions above do not. *)
Record ScheduleStorageRest (St : Type) : Type := {
  sch_Segment : Z -> St -> result models.Segment;
  sch_ClearSchedule : time.Time -> St -> option error * St
}.
Arguments sch_Segment {St}.
Arguments sch_ClearSchedule {St}.

(** The calls of these two methods: the events above and the two further
    store calls. *)
Inductive Call : Type :=
| Engine (e : Event)
| CallSegment (id : Z)
| CallClearSchedule (from : time.Time).

(** [models.Segment{}] *)
Definition zeroSegment : models.Segment :=
  models.mkSegment None None None None None false.

Definition opSegment : string := "Schedule.Segment".
Definition opClearSchedule : string := "Schedule.ClearSchedule".

Section Engine.

Context {St : Type}.
Variable schStorage : ScheduleStorage St.
Variable mediaStorage : MediaStorage St.
Variable rest : ScheduleStorageRest St.

(** [Schedule.Segment]: the stored segment, then the log line, which reads
    through [MediaID], [Start], [BeginCut] and [StopCut] in this order,
    then the protection flag. *)
Definition Segment (id : Z)
  : St -> Outcome (models.Segment * option error) * St * list Call :=
  fun st =>
    match sch_Segment rest id st with
    | Err err =>
        (Returned (zeroSegment,
                   Some (if errors_Is err storage_ErrSegmentNotFound
                         then service_ErrSegmentNotFound
                         else fmt_Errorf opSegment err)),
         st, [CallSegment id])
    | Ok segment =>
        match models.MediaID segment, models.Start segment,
              models.BeginCut segment, models.StopCut segment with
        | Some _, Some _, Some _, Some _ =>
            match sch_IsSegmentProtected schStorage id st with
            | Err err =>
                (Returned (zeroSegment, Some (fmt_Errorf opSegment err)), st,
                 [CallSegment id; Engine (CallIsSegmentProtected id)])
            | Ok isProt =>
                (Returned (models.setProtected segment isProt, None), st,
                 [CallSegment id; Engine (CallIsSegmentProtected id)])
            end
        | _, _, _, _ => (Panicked, st, [CallSegment id])
        end
    end.

(** [Schedule.ClearSchedule] *)
Definition ClearSchedule (from : time.Time)
  : St -> Outcome (option error) * St * list Call :=
  fun st =>
    let (r, st') := sch_ClearSchedule rest from st in
    (Returned match r with
              | Some err => Some (fmt_Errorf opClearSchedule err)
              | None => None
              end,
     st', [CallClearSchedule from]).

(** *** Vocabulary of the properties *)

(** The request [segment] passes the media lookup and the cut check of
    [NewSegment] in store [st]; its overlap query is over [start, stop]. *)
Definition admitted (st : St) (segment : models.Segment)
           (start stop : time.Time) : Prop :=
  exists mediaID media duration beginCut stopCut,
    models.MediaID segment = Some mediaID
    /\ med_Media mediaStorage mediaID st = Ok media
    /\ models.Duration media = Some duration
    /\ models.BeginCut segment = Some beginCut
    /\ models.StopCut segment = Some stopCut
    /\ 0 <= beginCut <= stopCut
    /\ stopCut <= duration
    /\ models.Start segment = Some start
    /\ stop = time.Add start (stopCut - beginCut).

(** [s'] is [s] with the protection flag that the store holds for it. *)
Definition flagged (st : St) (s s' : models.Segment) : Prop :=
  exists id isProt,
    models.ID s = Some id
    /\ sch_IsSegmentProtected schStorage id st = Ok isProt
    /\ s' = models.setProtected s isProt.

End Engine.

(** One protection fetch for each segment, in order. *)
Definition fetches (segments : list models.Segment) : list Event :=
  List.flat_map (fun s => match models.ID s with
                          | Some id => [CallIsSegmentProtected id]
                          | None => []
                          end) segments.

(** The characters of a start written with [models.TimeFormat]. *)
Definition inAlphabet (c : ascii) : bool :=
  shape.isDigit c
  || List.existsb (Ascii.eqb c) ["-"%char; ":"%char; "T"%char; "."%char; "+"%char].

End schedule_rest.

(** ** The in-memory store, the remaining methods *)

Module memstore_rest.

Import memstore.

Definition Segment (id : Z) (st : Store) : result models.Segment :=
  match List.find (hasID id) (rows st) with
  | Some s => Ok s
  | None => Err storage_ErrSegmentNotFound
  end.

Definition startsBefore (from : time.Time) (s : models.Segment) : bool :=
  match models.Start s with
  | Some b => time.unixNano b <? time.unixNano from
  | None => true
  end.

Definition ClearSchedule (from : time.Time) (st : Store) : option error * Store :=
  (None,
   mkStore (medias st)
           (List.filter (startsBefore from) (rows st))
           (List.filter (fun i => List.existsb (hasID i)
                                    (List.filter (startsBefore from) (rows st)))
                        (protectedIDs st))
           (nextID st) (cutFault st) (protFault st) (saveFault st)).

Definition rest : schedule_rest.ScheduleStorageRest Store :=
  {| schedule_rest.sch_Segment := Segment;
     schedule_rest.sch_ClearSchedule := ClearSchedule |}.

(** The engine on this store. *)
Definition Segment_ := schedule_rest.Segment schStorage rest.

(** The schedule holds A and C = [60 s, 90 s], C protected. *)
Definition segmentC : models.Segment := stored 2 60 30.
Definition scheduleAC : Store := store [segmentA; segmentC] [2] 3.

(** The same schedule on a store whose protection fetch fails. *)
Definition scheduleACunreadable : Store :=
  mkStore [media1] [segmentA; segmentC] [2] 3 None (Some connectionLost) None.

(** The schedule holds C only, A being gone. *)
Definition scheduleC : Store := store [segmentC] [2] 3.

(** The schedule holds A on a store that has lost the protection flags. *)
Definition scheduleAmissing : Store :=
  mkStore [media1] [segmentA] [] 2 None (Some storage_ErrSegmentNotFound) None.

(** An empty schedule on a store without media. *)
Definition noMedia : Store := mkStore [] [] [] 1 None None None.

(** The wall clock of [halfPast] in a zone thirty seconds further east. *)
Definition halfPastAgain : time.Time := time.mkTime 1699999970500000000 10830.
Definition halfSecondAgain : models.Segment :=
  models.mkSegment None (Some 2) (Some halfPastAgain) None None false.

End memstore_rest.

(** * Checks on concrete values *)

Example Format_epoch :
  time.Format (time.mkTime 0 0) "2006-01-02T15:04:05.999999999-07:00"
  = "1970-01-01T00:00:00+00:00".
Proof. vm_compute. reflexivity. Qed.

Example Format_2023 :
  time.Format (time.mkTime 1700000000123456000 10800) "2006-01-02T15:04:05.999999999-07:00"
  = "2023-11-15T01:13:20.123456+03:00".
Proof. vm_compute. reflexivity. Qed.

Example Format_1969 :
  time.Format (time.mkTime (-1) (-12600)) "2006-01-02T15:04:05.999999999-07:00"
  = "1969-12-31T20:29:59.999999999-03:30".
Proof. vm_compute. reflexivity. Qed.

Example marshalFields_example :
  models.marshalFields
    (models.mkSegment (Some 7) (Some 3) (Some (time.mkTime 1700000000500000000 0))
                      (Some 0) (Some 60000000000) true)
    (time.Format (time.mkTime 1700000000500000000 0) models.TimeFormat)
  = [ ("id", models.JNumber 7); ("mediaID", models.JNumber 3);
      ("beginCut", models.JNumber 0); ("stopCut", models.JNumber 60000000000);
      ("protected", models.JBool true);
      ("start", models.JString "2023-11-14T22:13:20.5+00:00") ].
Proof. vm_compute. reflexivity. Qed.

Example MarshalJSON_example :
  models.MarshalJSON
    (models.mkSegment None (Some 3) (Some (time.mkTime 0 0)) (Some 0) (Some 5) false)
  = Returned
      (String.concat models.quote
         [ "{"; "id"; ":null,"; "mediaID"; ":3,"; "beginCut"; ":0,"; "stopCut"; ":5,";
           "protected"; ":false,"; "start"; ":"; "1970-01-01T00:00:00+00:00"; "}" ],
       None).
Proof. vm_compute. reflexivity. Qed.

Example memstore_insert_unprotected :
  memstore.NewSegment (memstore.request 0 60 false) memstore.emptyStore
  = (Returned (1, None),
     memstore.store [memstore.stored 1 0 60] [] 2,
     [ schedule.CallMedia 1;
       schedule.CallScheduleCut (memstore.at_ 0) (memstore.at_ 60);
       schedule.SendAllSegments (memstore.request 0 60 false);
       schedule.CallSaveSegment (memstore.request 0 60 false) ]).
Proof. vm_compute. reflexivity. Qed.

Example memstore_scenario_B :
  fst (fst (memstore.NewSegment (memstore.request 30 60 false)
                                (memstore.store [memstore.stored 1 0 60] [] 2)))
  = Returned (0, Some service_ErrSegmentIntersection).
Proof. vm_compute. reflexivity. Qed.

Example memstore_scenario_C :
  memstore.NewSegment (memstore.request 30 60 true)
                      (memstore.store [memstore.stored 1 0 60] [] 2)
  = (Returned (2, None),
     memstore.store [memstore.stored 2 30 60] [2] 3,
     [ schedule.CallMedia 1;
       schedule.CallScheduleCut (memstore.at_ 30) (memstore.at_ 90);
       schedule.CallIsSegmentProtected 1;
       schedule.CallIsSegmentProtected 1;
       schedule.CallDeleteSegment 1;
       schedule.CallSaveSegment (memstore.request 30 60 true);
       schedule.CallProtectSegment 2;
       schedule.NotifyProtected;
       schedule.SendAllSegments (memstore.request 30 60 true) ]).
Proof. vm_compute. reflexivity. Qed.

(** * Properties of the schedule engine *)

Section EngineProperties.

Import models schedule.

Context {St : Type}.
Variable schStorage : ScheduleStorage St.
Variable mediaStorage : MediaStorage St.

Abbreviation ScheduleCut := (schedule.ScheduleCut schStorage).
Abbreviation ScheduleCut_range := (schedule.ScheduleCut_range schStorage).
Abbreviation DeleteSegment := (schedule.DeleteSegment schStorage).
Abbreviation NewSegment_range := (schedule.NewSegment_range schStorage).
Abbreviation NewSegment_place := (schedule.NewSegment_place schStorage).
Abbreviation NewSegment := (schedule.NewSegment schStorage mediaStorage).
Abbreviation intersected := (schedule.intersected schStorage mediaStorage).

(** ** Running the monad *)

Ltac inv H := inversion H; subst; clear H.

Ltac run :=
  repeat (cbn [ret emit deref lift chans_Send chans_Notify storage_Media
                 storage_ScheduleCut storage_IsSegmentProtected
                 storage_SaveSegment storage_DeleteSegment storage_ProtectSegment
                 app fst snd] in *;
          unfold bind, ret, emit, deref, lift, chans_Send, chans_Notify,
            storage_Media, storage_ScheduleCut, storage_IsSegmentProtected,
            storage_SaveSegment, storage_DeleteSegment, storage_ProtectSegment in *).

Ltac traces :=
  repeat first
    [ assumption
    | rewrite app_nil_r
    | apply Forall_nil
    | apply Forall_cons; [reflexivity|]
    | apply Forall_app; split ].

(** ** ScheduleCut *)

Lemma ScheduleCut_range_readonly segments :
  forall st r st' t,
    ScheduleCut_range segments st = (r, st', t) ->
    st' = st /\ Forall (fun e => isQuery e = true) t.
Proof.
  induction segments as [|segment rest IH]; intros st r st' t H; cbn in H.
  - run. inv H. auto.
  - run. destruct (ID segment) as [id|]; [|inv H; auto].
    destruct (sch_IsSegmentProtected schStorage id st) as [isProt|err].
    + destruct (ScheduleCut_range rest st) as [[r1 st1] t1] eqn:E.
      apply IH in E as [-> Hq].
      destruct r1 as [[rest'|err]|]; inv H; split; auto; traces.
    + inv H. split; auto.
Qed.

Lemma ScheduleCut_readonly start stop st r st' t :
  ScheduleCut start stop st = (r, st', t) ->
  st' = st /\ Forall (fun e => isQuery e = true) t.
Proof.
  unfold schedule.ScheduleCut. run. intros H.
  destruct (sch_ScheduleCut schStorage start stop st) as [segments|err].
  - destruct (ScheduleCut_range segments st) as [[r1 st1] t1] eqn:E.
    apply ScheduleCut_range_readonly in E as [-> Hq].
    destruct r1 as [[segments'|err]|]; inv H; split; auto; traces.
  - inv H. split; auto.
Qed.

Lemma ScheduleCut_range_error segments :
  forall st,
    Forall (fun s => ID s <> None) segments ->
    Exists (fun s => exists id cause,
                ID s = Some id /\ sch_IsSegmentProtected schStorage id st = Err cause)
           segments ->
    exists cause t, ScheduleCut_range segments st = (Returned (Err cause), st, t).
Proof.
  induction segments as [|segment rest IH]; intros st Hid Hex.
  - inversion Hex.
  - inversion Hid as [|? ? Hsome Hrest]; subst.
    cbn. run. destruct (ID segment) as [id|] eqn:Eid; [|congruence].
    destruct (sch_IsSegmentProtected schStorage id st) as [isProt|err] eqn:Eprot.
    + inversion Hex as [? ? (id' & cause & Hid' & Hprot)|? ? Hlater]; subst.
      * congruence.
      * destruct (IH st Hrest Hlater) as (cause & t & ->).
        exists cause. eexists. reflexivity.
    + exists err. eexists. reflexivity.
Qed.

(** C9. Whenever [ScheduleCut] returns an error, the slice returned
    with it is empty and the error wraps the fault of the store's range
    query or of one of the protection fetches; conversely a failing
    range query, or a failing protection fetch for one of the segments
    found, makes [ScheduleCut] return an error with the empty slice. *)
Theorem ScheduleCut_error_returns_empty start stop st :
  (forall segments err st' t,
      ScheduleCut start stop st = (Returned (segments, Some err), st', t) ->
      segments = [] /\ st' = st
      /\ exists cause, err = fmt_Errorf opScheduleCut cause)
  /\ (forall cause,
        sch_ScheduleCut schStorage start stop st = Err cause ->
        ScheduleCut start stop st
        = (Returned ([], Some (fmt_Errorf opScheduleCut cause)), st,
           [CallScheduleCut start stop]))
  /\ (forall found,
        sch_ScheduleCut schStorage start stop st = Ok found ->
        Forall (fun s => ID s <> None) found ->
        Exists (fun s => exists id cause,
                    ID s = Some id
                    /\ sch_IsSegmentProtected schStorage id st = Err cause) found ->
        exists cause t,
          ScheduleCut start stop st
          = (Returned ([], Some (fmt_Errorf opScheduleCut cause)), st, t)).
Proof.
  split; [|split].
  - intros segments err st' t H.
    pose proof (ScheduleCut_readonly _ _ _ _ _ _ H) as [-> _].
    unfold schedule.ScheduleCut in H. run.
    destruct (sch_ScheduleCut schStorage start stop st) as [found|cause].
    + destruct (ScheduleCut_range found st) as [[[[found'|cause]|] st1] t1];
        inv H; eauto.
    + inv H. eauto.
  - intros cause H. unfold schedule.ScheduleCut. run. rewrite H. reflexivity.
  - intros found H Hid Hex.
    destruct (ScheduleCut_range_error found st Hid Hex) as (cause & t & E).
    exists cause. unfold schedule.ScheduleCut. run. rewrite H, E.
    eexists. reflexivity.
Qed.

(** ** DeleteSegment *)

(** C7. [DeleteSegment] asks for the protection flag first and deletes
    second; a store answer that is [storage.ErrSegmentNotFound] at either
    step gives [service.ErrSegmentNotFound]; a successful deletion is
    followed by exactly one protection-changed signal when the flag was
    set and by none when it was not; no signal is sent on any failure. *)
Theorem DeleteSegment_protection_signal id st :
  (forall err,
      sch_IsSegmentProtected schStorage id st = Err err ->
      DeleteSegment id st
      = (Returned (Some (if errors_Is err storage_ErrSegmentNotFound
                         then service_ErrSegmentNotFound
                         else fmt_Errorf opDeleteSegment err)),
         st, [CallIsSegmentProtected id]))
  /\ (forall isProt err st',
        sch_IsSegmentProtected schStorage id st = Ok isProt ->
        sch_DeleteSegment schStorage id st = (Some err, st') ->
        DeleteSegment id st
        = (Returned (Some (if errors_Is err storage_ErrSegmentNotFound
                           then service_ErrSegmentNotFound
                           else fmt_Errorf opDeleteSegment err)),
           st', [CallIsSegmentProtected id; CallDeleteSegment id]))
  /\ (forall isProt st',
        sch_IsSegmentProtected schStorage id st = Ok isProt ->
        sch_DeleteSegment schStorage id st = (None, st') ->
        DeleteSegment id st
        = (Returned None, st',
           [CallIsSegmentProtected id; CallDeleteSegment id]
             ++ (if isProt then [NotifyProtected] else []))).
Proof.
  unfold schedule.DeleteSegment. run. repeat split.
  - intros err ->. destruct (errors_Is err storage_ErrSegmentNotFound); reflexivity.
  - intros isProt err st' -> ->.
    destruct (errors_Is err storage_ErrSegmentNotFound); reflexivity.
  - intros isProt st' -> ->. destruct isProt; reflexivity.
Qed.

Lemma DeleteSegment_events id st r st' t :
  DeleteSegment id st = (r, st', t) ->
  Forall (fun e => isInsertion e = false) t /\ exists e, r = Returned e.
Proof.
  unfold schedule.DeleteSegment. run. intros H.
  destruct (sch_IsSegmentProtected schStorage id st) as [isProt|err].
  - destruct (sch_DeleteSegment schStorage id st) as [[err|] st1].
    + destruct (errors_Is err storage_ErrSegmentNotFound); inv H; split; eauto; traces.
    + destruct isProt; inv H; split; eauto; traces.
  - destruct (errors_Is err storage_ErrSegmentNotFound); inv H; split; eauto; traces.
Qed.

(** ** NewSegment *)

Lemma NewSegment_range_events start res :
  forall st r st' t,
    NewSegment_range start res st = (r, st', t) ->
    Forall (fun e => isInsertion e = false) t.
Proof.
  induction res as [|segm rest IH]; intros st r st' t H;
    cbn [schedule.NewSegment_range] in H.
  - run. inv H. constructor.
  - unfold bind at 1 in H. unfold lift in H.
    destruct (End segm) as [segmEnd|]; [|inv H; constructor].
    unfold bind at 1 in H.
    destruct (time.eqb segmEnd start).
    + run. destruct (NewSegment_range start rest st) as [[r1 st1] t1] eqn:E.
      inv H. apply IH in E. traces.
    + run. destruct (Start segm) as [segmStart|]; [|inv H; constructor].
      destruct (time.eqb segmStart segmEnd).
      * destruct (NewSegment_range start rest st) as [[r1 st1] t1] eqn:E.
        inv H. apply IH in E. traces.
      * destruct (ID segm) as [id|]; [|inv H; constructor].
        destruct (DeleteSegment id st) as [[rd std] td] eqn:Ed.
        destruct (DeleteSegment_events _ _ _ _ _ Ed) as [Hd [e ->]].
        destruct e as [err|].
        -- destruct (errors_Is err service_ErrSegmentNotFound).
           ++ destruct (NewSegment_range start rest std) as [[r1 st1] t1] eqn:E.
              inv H. apply IH in E. traces.
           ++ inv H. traces.
        -- destruct (NewSegment_range start rest std) as [[r1 st1] t1] eqn:E.
           inv H. apply IH in E. traces.
Qed.

(** A request that reaches the overlap query continues with
    [NewSegment_place], after queries only. *)
Lemma NewSegment_intersected st segment start stop res :
  intersected st segment start stop res ->
  exists t0,
    Forall (fun e => isQuery e = true) t0
    /\ NewSegment segment st
       = (let '(r, st', t) := NewSegment_place segment start res st in
          (r, st', t0 ++ t)).
Proof.
  intros (mediaID & media & duration & beginCut & stopCut & st1 & t1 &
          Hid & Hmedia & Hdur & Hbegin & Hstop & Hcut & Hle & Hstart & -> & Hquery).
  pose proof (ScheduleCut_readonly _ _ _ _ _ _ Hquery) as [-> Hq].
  exists (CallMedia mediaID :: t1). split; [traces|].
  unfold schedule.NewSegment, cutOutOfBounds, End. run.
  rewrite Hid, Hmedia, Hdur, Hstop, Hbegin, Hstart.
  replace (duration <? stopCut) with false by (symmetry; apply Z.ltb_ge; lia).
  replace (duration <? beginCut) with false by (symmetry; apply Z.ltb_ge; lia).
  replace (beginCut <? 0) with false by (symmetry; apply Z.ltb_ge; lia).
  replace (stopCut <? 0) with false by (symmetry; apply Z.ltb_ge; lia).
  cbn [orb].
  replace (beginCut >? stopCut) with false
    by (symmetry; rewrite Z.gtb_ltb; apply Z.ltb_ge; lia).
  rewrite Hquery.
  destruct (NewSegment_place segment start res st) as [[r st'] t].
  cbn [app]. rewrite ?app_nil_r. reflexivity.
Qed.

(** Every run of [NewSegment] either stops before the placement, having
    only queried the storages and without success, or reaches the overlap
    query and continues with [NewSegment_place]. *)
Lemma NewSegment_cases segment st r st' t :
  NewSegment segment st = (r, st', t) ->
  (st' = st /\ Forall (fun e => isQuery e = true) t
   /\ forall id, r <> Returned (id, None))
  \/ (exists start stop res t0 t1,
        intersected st segment start stop res
        /\ Forall (fun e => isQuery e = true) t0
        /\ t = t0 ++ t1
        /\ NewSegment_place segment start res st = (r, st', t1)).
Proof.
  intros H. unfold schedule.NewSegment, cutOutOfBounds in H. run.
  destruct (MediaID segment) as [mediaID|] eqn:Hid;
    [|inv H; left; repeat split; traces; discriminate].
  destruct (med_Media mediaStorage mediaID st) as [media|err] eqn:Hmedia.
  2:{ destruct (errors_Is err storage_ErrMediaNotFound); inv H;
      left; repeat split; traces; discriminate. }
  destruct (Duration media) as [duration|] eqn:Hdur;
    [|inv H; left; repeat split; traces; discriminate].
  destruct (StopCut segment) as [stopCut|] eqn:Hstop;
    [|inv H; left; repeat split; traces; discriminate].
  destruct (duration <? stopCut) eqn:C1.
  { destruct (BeginCut segment); inv H; left; repeat split; traces; discriminate. }
  destruct (BeginCut segment) as [beginCut|] eqn:Hbegin;
    [|inv H; left; repeat split; traces; discriminate].
  destruct (duration <? beginCut) eqn:C2;
    [inv H; left; repeat split; traces; discriminate|].
  destruct (beginCut <? 0) eqn:C3;
    [inv H; left; repeat split; traces; discriminate|].
  destruct (stopCut <? 0) eqn:C4;
    [inv H; left; repeat split; traces; discriminate|].
  cbn [orb] in H.
  destruct (beginCut >? stopCut) eqn:C5;
    [inv H; left; repeat split; traces; discriminate|].
  destruct (Start segment) as [start|] eqn:Hstart;
    [|inv H; left; repeat split; traces; discriminate].
  unfold End in H. rewrite Hstart, Hstop, Hbegin in H.
  destruct (ScheduleCut start (time.Add start (stopCut - beginCut)) st)
    as [[rc stc] tc] eqn:Hquery.
  pose proof (ScheduleCut_readonly _ _ _ _ _ _ Hquery) as [-> Hq].
  destruct rc as [[res [err|]]|].
  - inv H. left. repeat split; traces; discriminate.
  - destruct (NewSegment_place segment start res st) as [[rp stp] tp] eqn:Hplace.
    inv H. right.
    exists start, (time.Add start (stopCut - beginCut)), res,
      (CallMedia mediaID :: tc), tp.
    split; [|split; [traces|split; [|assumption]]].
    + exists mediaID, media, duration, beginCut, stopCut, st, tc.
      apply Z.ltb_ge in C1, C2, C3, C4. rewrite Z.gtb_ltb in C5.
      apply Z.ltb_ge in C5. repeat split; auto; lia.
    + cbn [app]. rewrite ?app_nil_r. reflexivity.
  - inv H. left. repeat split; traces; discriminate.
Qed.

(** C6. Once the media is found, a cut that is negative or exceeds the
    media's duration is refused with [service.ErrCutOutOfBounds];
    otherwise a begin cut after the stop cut is refused with
    [service.ErrBeginAfterStop]; in both cases the store is left as it
    was and the only event is the media lookup. *)
Theorem NewSegment_cut_check segment st mediaID media duration beginCut stopCut :
  MediaID segment = Some mediaID ->
  med_Media mediaStorage mediaID st = Ok media ->
  Duration media = Some duration ->
  BeginCut segment = Some beginCut ->
  StopCut segment = Some stopCut ->
  (beginCut < 0 \/ stopCut < 0 \/ beginCut > duration \/ stopCut > duration ->
   NewSegment segment st
   = (Returned (0, Some service_ErrCutOutOfBounds), st, [CallMedia mediaID]))
  /\ (0 <= beginCut <= duration -> 0 <= stopCut <= duration -> beginCut > stopCut ->
      NewSegment segment st
      = (Returned (0, Some service_ErrBeginAfterStop), st, [CallMedia mediaID])).
Proof.
  intros Hid Hmedia Hdur Hbegin Hstop.
  unfold schedule.NewSegment, cutOutOfBounds. run.
  rewrite Hid, Hmedia, Hdur, Hstop, Hbegin. split.
  - intros Hbad.
    destruct (duration <? stopCut) eqn:C1; [reflexivity|].
    destruct (duration <? beginCut) eqn:C2; [reflexivity|].
    destruct (beginCut <? 0) eqn:C3; [reflexivity|].
    destruct (stopCut <? 0) eqn:C4; [reflexivity|].
    apply Z.ltb_ge in C1, C2, C3, C4. lia.
  - intros Hb Hs Hgt.
    replace (duration <? stopCut) with false by (symmetry; apply Z.ltb_ge; lia).
    replace (duration <? beginCut) with false by (symmetry; apply Z.ltb_ge; lia).
    replace (beginCut <? 0) with false by (symmetry; apply Z.ltb_ge; lia).
    replace (stopCut <? 0) with false by (symmetry; apply Z.ltb_ge; lia).
    cbn [orb].
    replace (beginCut >? stopCut) with true
      by (symmetry; rewrite Z.gtb_ltb; apply Z.ltb_lt; lia).
    reflexivity.
Qed.

(** C3. An unprotected request whose overlap query returns a non-empty
    set fails with [service.ErrSegmentIntersection]; the store is left
    as it was and the engine has only queried: no save, no delete, no
    protect, nothing sent on either channel. *)
Theorem NewSegment_unprotected_intersection st segment start stop res :
  Protected segment = false ->
  intersected st segment start stop res ->
  res <> [] ->
  exists t,
    NewSegment segment st
    = (Returned (0, Some service_ErrSegmentIntersection), st, t)
    /\ Forall (fun e => isQuery e = true) t.
Proof.
  intros Hprot Hreach Hres.
  destruct (NewSegment_intersected _ _ _ _ _ Hreach) as (t0 & Hq & ->).
  unfold schedule.NewSegment_place. rewrite Hprot. cbn [negb].
  destruct res as [|s res]; [congruence|].
  replace (0 <? Z.of_nat (List.length (s :: res))) with true
    by (symmetry; apply Z.ltb_lt; cbn [List.length]; lia).
  run. exists (t0 ++ []). split; [reflexivity|traces].
Qed.

Lemma firstProtected_some res :
  (exists s, In s res /\ Protected s = true) ->
  exists found, firstProtected res = Some found /\ In found res.
Proof.
  intros (s & Hin & Hp). unfold firstProtected.
  destruct (find Protected res) as [found|] eqn:E.
  - exists found. split; [reflexivity|]. apply find_some in E. tauto.
  - pose proof (find_none _ _ E s Hin). congruence.
Qed.

(** C4. A protected request whose overlap query returns a protected
    segment fails with [service.ErrSegmentIntersection]; the store is
    left as it was and the engine has only queried: nothing is deleted,
    nothing saved, nothing sent.  The segments found are taken to have
    their time fields set, which the log line of this branch reads. *)
Theorem NewSegment_protected_conflict st segment start stop res :
  Protected segment = true ->
  intersected st segment start stop res ->
  Forall populated res ->
  (exists s, In s res /\ Protected s = true) ->
  exists t,
    NewSegment segment st
    = (Returned (0, Some service_ErrSegmentIntersection), st, t)
    /\ Forall (fun e => isQuery e = true) t.
Proof.
  intros Hprot Hreach Hpop Hex.
  destruct (NewSegment_intersected _ _ _ _ _ Hreach) as (t0 & Hq & ->).
  destruct (firstProtected_some _ Hex) as (found & Hfound & Hin).
  unfold schedule.NewSegment_place. rewrite Hprot, Hfound. cbn [negb].
  rewrite Forall_forall in Hpop. destruct (Hpop _ Hin) as (_ & Hs & Hb & He).
  unfold End. run.
  destruct (Start found); [|congruence].
  destruct (StopCut found); [|congruence].
  destruct (BeginCut found); [|congruence].
  exists (t0 ++ []). split; [reflexivity|traces].
Qed.

(** The events of a placement: events that are no insertion step, then
    one of five endings. *)
Lemma NewSegment_place_shape segment start res st r st' t :
  NewSegment_place segment start res st = (r, st', t) ->
  exists pre post,
    t = pre ++ post
    /\ Forall (fun e => isInsertion e = false) pre
    /\ ((post = [] /\ forall id, r <> Returned (id, None))
        \/ (Protected segment = false
            /\ post = [SendAllSegments segment; CallSaveSegment segment])
        \/ (post = [CallSaveSegment segment] /\ forall id, r <> Returned (id, None))
        \/ (exists id, post = [CallSaveSegment segment; CallProtectSegment id]
                       /\ forall id', r <> Returned (id', None))
        \/ (exists id, post = [CallSaveSegment segment; CallProtectSegment id;
                               NotifyProtected; SendAllSegments segment]
                       /\ r = Returned (id, None))).
Proof.
  unfold schedule.NewSegment_place. intros H.
  destruct (Protected segment) eqn:Hprot; cbn [negb] in H.
  - destruct (firstProtected res) as [found|].
    + exists [], t. split; [reflexivity|]. split; [constructor|]. left.
      unfold End in H. run.
      destruct (Start found); [|inv H; split; [reflexivity|discriminate]].
      destruct (StopCut found); [|inv H; split; [reflexivity|discriminate]].
      destruct (BeginCut found); inv H; split; try reflexivity; discriminate.
    + unfold bind at 1 in H.
      destruct (NewSegment_range start res st) as [[rr str] tr] eqn:Hrange.
      apply NewSegment_range_events in Hrange.
      destruct rr as [[err|]|].
      * run. inv H. exists tr, []. split; [reflexivity|]. split; [assumption|].
        left. split; [reflexivity|discriminate].
      * run. destruct (sch_SaveSegment schStorage segment str) as [[id|err] sts].
        -- destruct (sch_ProtectSegment schStorage id sts) as [[err|] stp]; inv H.
           ++ exists tr. eexists. split; [reflexivity|]. split; [assumption|].
              right. right. right. left. exists id. split; [reflexivity|discriminate].
           ++ exists tr. eexists. split; [reflexivity|]. split; [assumption|].
              right. right. right. right. exists id. split; reflexivity.
        -- inv H. exists tr. eexists. split; [reflexivity|]. split; [assumption|].
           right. right. left. split; [reflexivity|discriminate].
      * inv H. eexists. exists []. split; [symmetry; apply app_nil_r|].
        split; [assumption|]. left. split; [reflexivity|discriminate].
  - destruct (0 <? Z.of_nat (List.length res)).
    + run. inv H. exists [], []. split; [reflexivity|]. split; [constructor|].
      left. split; [reflexivity|discriminate].
    + run. exists []. eexists. split; [cbn [app]; reflexivity|].
      split; [constructor|]. right. left. split; [reflexivity|].
      destruct (sch_SaveSegment schStorage segment st) as [[id|err] sts];
        inv H; reflexivity.
Qed.

Lemma isQuery_not_insertion t :
  Forall (fun e => isQuery e = true) t ->
  Forall (fun e => isInsertion e = false) t.
Proof.
  apply Forall_impl. intros [] H; cbn in *; congruence.
Qed.

(** A payload found in [pre ++ post] lies in [post] when [pre] holds no
    insertion step. *)
Lemma payload_in_post pre :
  forall post a s b,
    Forall (fun e => isInsertion e = false) pre ->
    pre ++ post = a ++ SendAllSegments s :: b ->
    exists a', post = a' ++ SendAllSegments s :: b.
Proof.
  induction pre as [|x pre IH]; intros post a s b Hpre H.
  - exists a. exact H.
  - inversion Hpre as [|? ? Hx Hrest]; subst.
    destruct a as [|y a]; cbn [app] in H; inversion H; subst.
    + discriminate Hx.
    + eapply IH; eauto.
Qed.

Lemma signalsFirst_split a :
  forall s b,
    signalsFirst (a ++ SendAllSegments s :: b) = true -> ~ In NotifyProtected b.
Proof.
  induction a as [|x a IH]; intros s b H; cbn [app signalsFirst] in H.
  - apply andb_true_iff in H as [H _]. apply negb_true_iff in H.
    intros Hin. assert (existsb isNotify b = true); [|congruence].
    apply existsb_exists. exists NotifyProtected. split; [assumption|reflexivity].
  - destruct x; cbn [signalsFirst] in H; try exact (IH _ _ H).
    apply andb_true_iff in H as [_ H]. exact (IH _ _ H).
Qed.

(** C5. A protected insertion that succeeds ends with exactly these four
    steps, in this order: save the segment, mark it protected, signal
    the protection change, publish the segment; whatever precedes them
    (queries and the clearing of conflicting segments) holds no
    insertion step.  And in every run of [NewSegment], no
    protection-changed signal comes after a published payload. *)
Theorem NewSegment_protected_order segment st r st' t :
  NewSegment segment st = (r, st', t) ->
  (forall id,
      Protected segment = true -> r = Returned (id, None) ->
      exists pre,
        t = pre ++ [CallSaveSegment segment; CallProtectSegment id;
                    NotifyProtected; SendAllSegments segment]
        /\ Forall (fun e => isInsertion e = false) pre)
  /\ (forall a s b, t = a ++ SendAllSegments s :: b -> ~ In NotifyProtected b).
Proof.
  intros H.
  destruct (NewSegment_cases _ _ _ _ _ H)
    as [(_ & Hq & Hfail) | (start & stop & res & t0 & t1 & _ & Hq & -> & Hplace)].
  - split.
    + intros id _ ->. exfalso. exact (Hfail id eq_refl).
    + intros a s b ->. apply Forall_app in Hq as [_ Hq].
      inversion Hq as [|? ? Hs _]. discriminate Hs.
  - apply isQuery_not_insertion in Hq.
    destruct (NewSegment_place_shape _ _ _ _ _ _ _ Hplace)
      as (pre & post & -> & Hpre & Hpost).
    assert (Hall : Forall (fun e => isInsertion e = false) (t0 ++ pre))
      by (apply Forall_app; split; assumption).
    split.
    + intros id Hprot ->. exists (t0 ++ pre). split; [|assumption].
      rewrite <- app_assoc. f_equal. f_equal.
      destruct Hpost as [[_ Hf] | [[Hu _] | [[_ Hf] | [(i & _ & Hf) | (i & -> & Hr)]]]];
        try (exfalso; exact (Hf id eq_refl)); try congruence.
    + intros a s b Heq. rewrite app_assoc in Heq.
      destruct (payload_in_post _ _ _ _ _ Hall Heq) as (a' & Ha').
      apply (signalsFirst_split a' s b). rewrite <- Ha'.
      destruct Hpost as [[-> _] | [[_ ->] | [[-> _] | [(i & -> & _) | (i & -> & _)]]]];
        reflexivity.
Qed.




(** ** Totality under the precondition *)

Lemma populated_setProtected s p : populated s -> populated (setProtected s p).
Proof. intros H. exact H. Qed.

Lemma ScheduleCut_range_returns segments st :
  Forall populated segments ->
  exists r t,
    ScheduleCut_range segments st = (Returned r, st, t)
    /\ forall found, r = Ok found -> Forall populated found.
Proof.
  induction segments as [|segment rest IH]; intros Hpop;
    cbn [schedule.ScheduleCut_range]; run.
  - do 2 eexists. split; [reflexivity|]. intros found [= <-]. constructor.
  - inversion Hpop as [|? ? Hs Hrest]; subst.
    destruct (IH Hrest) as (r1 & t1 & E & Hfound).
    destruct Hs as (Hid & Hothers).
    destruct (ID segment) as [id|] eqn:Eid; [|congruence].
    destruct (sch_IsSegmentProtected schStorage id st) as [isProt|err].
    + rewrite E. destruct r1 as [rest'|err].
      * do 2 eexists. split; [reflexivity|]. intros found [= <-].
        constructor; [|apply Hfound; reflexivity].
        apply populated_setProtected. split; [congruence|exact Hothers].
      * do 2 eexists. split; [reflexivity|]. discriminate.
    + do 2 eexists. split; [reflexivity|]. discriminate.
Qed.

Lemma NewSegment_range_returns start res :
  Forall populated res ->
  forall st, exists r st' t, NewSegment_range start res st = (Returned r, st', t).
Proof.
  induction res as [|segm rest IH]; intros Hpop st;
    cbn [schedule.NewSegment_range]; run.
  - do 3 eexists. reflexivity.
  - inversion Hpop as [|? ? Hs Hrest]; subst.
    destruct Hs as (Hid & Hstart & Hbegin & Hstop). unfold End.
    destruct (Start segm) as [segmStart|]; [|congruence].
    destruct (StopCut segm) as [segmStop|]; [|congruence].
    destruct (BeginCut segm) as [segmBegin|]; [|congruence].
    destruct (ID segm) as [id|]; [|congruence].
    assert (Hnext : forall st1 t0, exists r st' t,
               (let (p, t2) := NewSegment_range start rest st1 in
                let (r0, st2) := p in (r0, st2, t0 ++ t2)) = (Returned r, st', t)).
    { intros st1 t0. destruct (IH Hrest st1) as (r & st' & t & ->).
      do 3 eexists. reflexivity. }
    destruct (time.eqb (time.Add segmStart (segmStop - segmBegin)) start).
    + destruct (IH Hrest st) as (r & st' & t & ->). do 3 eexists. reflexivity.
    + cbn [app].
      destruct (time.eqb segmStart (time.Add segmStart (segmStop - segmBegin))).
      * destruct (IH Hrest st) as (r & st' & t & ->). do 3 eexists. reflexivity.
      * destruct (DeleteSegment id st) as [[rd std] td] eqn:Ed.
        destruct (DeleteSegment_events _ _ _ _ _ Ed) as [_ [e ->]].
        destruct e as [err|].
        -- destruct (errors_Is err service_ErrSegmentNotFound).
           ++ destruct (IH Hrest std) as (r & st' & t & ->). do 3 eexists. reflexivity.
           ++ do 3 eexists. reflexivity.
        -- destruct (IH Hrest std) as (r & st' & t & ->). do 3 eexists. reflexivity.
Qed.

Lemma NewSegment_place_returns segment start res st :
  Forall populated res ->
  exists v st' t, NewSegment_place segment start res st = (Returned v, st', t).
Proof.
  intros Hpop. unfold schedule.NewSegment_place.
  destruct (Protected segment); cbn [negb].
  - destruct (firstProtected res) as [found|] eqn:Efound.
    + apply find_some in Efound as [Hin _].
      rewrite Forall_forall in Hpop. destruct (Hpop _ Hin) as (_ & Hs & Hb & He).
      unfold End. run.
      destruct (Start found); [|congruence].
      destruct (StopCut found); [|congruence].
      destruct (BeginCut found); [|congruence].
      do 3 eexists. reflexivity.
    + unfold bind at 1.
      destruct (NewSegment_range_returns start res Hpop st) as (r & st1 & t1 & ->).
      destruct r as [err|]; run; [do 3 eexists; reflexivity|].
      destruct (sch_SaveSegment schStorage segment st1) as [[id|err] st2];
        [|do 3 eexists; reflexivity].
      destruct (sch_ProtectSegment schStorage id st2) as [[err|] st3];
        do 3 eexists; reflexivity.
  - destruct (0 <? Z.of_nat (List.length res)); run; [do 3 eexists; reflexivity|].
    destruct (sch_SaveSegment schStorage segment st) as [[id|err] st2];
      do 3 eexists; reflexivity.
Qed.

(** With the four pointers of the request set, the duration of every
    media set and every stored segment populated, [NewSegment] returns. *)
Lemma NewSegment_returns st segment :
  MediaID segment <> None -> Start segment <> None ->
  BeginCut segment <> None -> StopCut segment <> None ->
  (forall id media, med_Media mediaStorage id st = Ok media -> Duration media <> None) ->
  (forall start stop found,
      sch_ScheduleCut schStorage start stop st = Ok found -> Forall populated found) ->
  exists v st' t, NewSegment segment st = (Returned v, st', t).
Proof.
  intros Hid Hstart Hbegin Hstop Hmedia Hstore.
  destruct (NewSegment segment st) as [[r st'] t] eqn:H.
  destruct r as [v|]; [do 3 eexists; reflexivity|]. exfalso.
  destruct (NewSegment_cases _ _ _ _ _ H)
    as [_ | (start & stop & res & t0 & t1 & Hreach & _ & _ & Hplace)].
  - unfold schedule.NewSegment, cutOutOfBounds, schedule.ScheduleCut, End in H. run.
    destruct (MediaID segment) as [mediaID|]; [|congruence].
    destruct (med_Media mediaStorage mediaID st) as [media|err] eqn:Em.
    2:{ destruct (errors_Is err storage_ErrMediaNotFound); discriminate. }
    specialize (Hmedia _ _ Em).
    destruct (Duration media) as [duration|]; [|congruence].
    destruct (StopCut segment) as [stopCut|]; [|congruence].
    destruct (BeginCut segment) as [beginCut|]; [|congruence].
    destruct (Start segment) as [start|]; [|congruence].
    destruct (duration <? stopCut); [discriminate|].
    destruct ((duration <? beginCut) || (beginCut <? 0) || (stopCut <? 0))%bool;
      [discriminate|].
    destruct (beginCut >? stopCut); [discriminate|].
    destruct (sch_ScheduleCut schStorage start (time.Add start (stopCut - beginCut)) st)
      as [found|err] eqn:Ec; [|discriminate].
    destruct (ScheduleCut_range_returns found st (Hstore _ _ _ Ec)) as (r1 & tr & E1 & Hf).
    rewrite E1 in H. destruct r1 as [found'|err]; [|discriminate].
    destruct (NewSegment_place_returns segment start found' st (Hf _ eq_refl))
      as (v & st2 & t2 & E2).
    rewrite E2 in H. discriminate.
  - destruct Hreach as (mediaID & media & duration & beginCut & stopCut & st1 & tq &
                        _ & _ & _ & _ & _ & _ & _ & _ & -> & Hquery).
    unfold schedule.ScheduleCut in Hquery. run.
    destruct (sch_ScheduleCut schStorage start (time.Add start (stopCut - beginCut)) st)
      as [found|err] eqn:Ec; [|discriminate].
    destruct (ScheduleCut_range_returns found st (Hstore _ _ _ Ec)) as (r1 & tr & E1 & Hf).
    rewrite E1 in Hquery. destruct r1 as [found'|err]; [|discriminate].
    injection Hquery as <- _ _.
    destruct (NewSegment_place_returns segment start found' st (Hf _ eq_refl))
      as (v & st2 & t2 & E2).
    congruence.
Qed.


(** What the unprotected path does with an empty overlap set, whatever
    the store answers to the save: the payload goes out first. *)
Lemma NewSegment_unprotected_free st segment start stop :
  Protected segment = false ->
  intersected st segment start stop [] ->
  exists t0,
    Forall (fun e => isQuery e = true) t0
    /\ NewSegment segment st
       = (let (saved, st') := sch_SaveSegment schStorage segment st in
          (Returned match saved with
                    | Ok id => (id, None)
                    | Err err => (0, Some (fmt_Errorf opNewSegment err))
                    end,
           st', t0 ++ [SendAllSegments segment; CallSaveSegment segment])).
Proof.
  intros Hprot Hreach.
  destruct (NewSegment_intersected _ _ _ _ _ Hreach) as (t0 & Hq & ->).
  exists t0. split; [assumption|].
  unfold schedule.NewSegment_place. rewrite Hprot. cbn [negb].
  change (0 <? Z.of_nat (List.length (@nil Segment))) with false. cbv iota.
  run. destruct (sch_SaveSegment schStorage segment st) as [[id|err] st']; reflexivity.
Qed.

(** The test at the head of the clearing loop: a found segment is passed
    over when it ends where the new one starts, or when its own start
    equals its own end. *)
Lemma NewSegment_range_skip start segm rest st segmEnd :
  End segm = Returned segmEnd ->
  time.eqb segmEnd start = true
  \/ (exists segmStart, Start segm = Some segmStart
                        /\ time.eqb segmStart segmEnd = true) ->
  NewSegment_range start (segm :: rest) st = NewSegment_range start rest st.
Proof.
  intros He Hskip. cbn [schedule.NewSegment_range]. run. rewrite He.
  destruct (time.eqb segmEnd start) eqn:E.
  - destruct (NewSegment_range start rest st) as [[r st'] t]. reflexivity.
  - destruct Hskip as [H|(segmStart & Hs & Heq)]; [discriminate|].
    rewrite Hs. cbn. rewrite Heq.
    destruct (NewSegment_range start rest st) as [[r st'] t]. reflexivity.
Qed.

(** Any other found segment is handed to [DeleteSegment], also when it
    starts where the new one ends. *)
Lemma NewSegment_range_delete start segm rest st segmStart segmEnd id :
  Start segm = Some segmStart ->
  End segm = Returned segmEnd ->
  ID segm = Some id ->
  time.eqb segmEnd start = false ->
  time.eqb segmStart segmEnd = false ->
  exists r st1 t1 r2 st2 t2,
    DeleteSegment id st = (Returned r, st1, t1)
    /\ NewSegment_range start (segm :: rest) st = (r2, st2, t1 ++ t2).
Proof.
  intros Hs He Hid E1 E2. cbn [schedule.NewSegment_range]. run.
  rewrite He, E1, Hs. cbn [app]. rewrite E2, Hid.
  destruct (DeleteSegment id st) as [[rd st1] t1] eqn:Ed.
  destruct (DeleteSegment_events _ _ _ _ _ Ed) as [_ [r ->]].
  exists r, st1, t1.
  destruct r as [err|].
  - destruct (errors_Is err service_ErrSegmentNotFound).
    + destruct (NewSegment_range start rest st1) as [[r2 st2] t2].
      exists r2, st2, t2. split; reflexivity.
    + do 3 eexists. split; reflexivity.
  - destruct (NewSegment_range start rest st1) as [[r2 st2] t2].
    exists r2, st2, t2. split; reflexivity.
Qed.

End EngineProperties.

(** * The engine on concrete schedules *)

Section Concrete.

Import models schedule memstore.

Ltac concrete := vm_compute; first [reflexivity | easy].

Lemma intersected_A prot :
  intersected schStorage mediaStorage scheduleA (request 30 60 prot)
              (at_ 30) (at_ 90) [segmentA].
Proof.
  exists 1, media1, (sec 300), 0, (sec 60). do 2 eexists.
  repeat split; try reflexivity; try concrete.
Qed.

Lemma intersected_Aprotected prot :
  intersected schStorage mediaStorage scheduleAprotected (request 30 60 prot)
              (at_ 30) (at_ 90) [setProtected segmentA true].
Proof.
  exists 1, media1, (sec 300), 0, (sec 60). do 2 eexists.
  repeat split; try reflexivity; try concrete.
Qed.

Lemma NewSegment_unprotected_intersection_witness :
  exists t,
    memstore.NewSegment (request 30 60 false) scheduleA
    = (Returned (0, Some service_ErrSegmentIntersection), scheduleA, t)
    /\ Forall (fun e => isQuery e = true) t.
Proof.
  apply (NewSegment_unprotected_intersection
           schStorage mediaStorage scheduleA (request 30 60 false)
           (at_ 30) (at_ 90) [segmentA]).
  - reflexivity.
  - apply intersected_A.
  - discriminate.
Defined.

Lemma NewSegment_protected_conflict_witness :
  exists t,
    memstore.NewSegment (request 30 60 true) scheduleAprotected
    = (Returned (0, Some service_ErrSegmentIntersection), scheduleAprotected, t)
    /\ Forall (fun e => isQuery e = true) t.
Proof.
  apply (NewSegment_protected_conflict
           schStorage mediaStorage scheduleAprotected (request 30 60 true)
           (at_ 30) (at_ 90) [setProtected segmentA true]).
  - reflexivity.
  - apply intersected_Aprotected.
  - constructor; [|constructor]. repeat split; discriminate.
  - exists (setProtected segmentA true). split; [left|]; reflexivity.
Defined.

Lemma NewSegment_protected_order_witness :
  memstore.NewSegment (request 30 60 true) scheduleA
  = (Returned (2, None), store [stored 2 30 60] [2] 3,
     [ CallMedia 1; CallScheduleCut (at_ 30) (at_ 90); CallIsSegmentProtected 1;
       CallIsSegmentProtected 1; CallDeleteSegment 1;
       CallSaveSegment (request 30 60 true); CallProtectSegment 2;
       NotifyProtected; SendAllSegments (request 30 60 true) ])
  /\ exists pre,
      [ CallMedia 1; CallScheduleCut (at_ 30) (at_ 90); CallIsSegmentProtected 1;
        CallIsSegmentProtected 1; CallDeleteSegment 1;
        CallSaveSegment (request 30 60 true); CallProtectSegment 2;
        NotifyProtected; SendAllSegments (request 30 60 true) ]
      = pre ++ [ CallSaveSegment (request 30 60 true); CallProtectSegment 2;
                 NotifyProtected; SendAllSegments (request 30 60 true) ]
      /\ Forall (fun e => isInsertion e = false) pre.
Proof.
  assert (H : memstore.NewSegment (request 30 60 true) scheduleA
              = (Returned (2, None), store [stored 2 30 60] [2] 3,
                 [ CallMedia 1; CallScheduleCut (at_ 30) (at_ 90);
                   CallIsSegmentProtected 1; CallIsSegmentProtected 1;
                   CallDeleteSegment 1; CallSaveSegment (request 30 60 true);
                   CallProtectSegment 2; NotifyProtected;
                   SendAllSegments (request 30 60 true) ]))
    by (vm_compute; reflexivity).
  split; [exact H|].
  apply (proj1 (NewSegment_protected_order schStorage mediaStorage _ _ _ _ _ H) 2);
    reflexivity.
Defined.

Lemma NewSegment_cut_check_witness :
  memstore.NewSegment (request 0 400 false) emptyStore
  = (Returned (0, Some service_ErrCutOutOfBounds), emptyStore, [CallMedia 1])
  /\ memstore.NewSegment
       (mkSegment None (Some 1) (Some (at_ 0)) (Some (sec 50)) (Some (sec 10)) false)
       emptyStore
     = (Returned (0, Some service_ErrBeginAfterStop), emptyStore, [CallMedia 1]).
Proof.
  split.
  - apply (proj1 (NewSegment_cut_check schStorage mediaStorage
                    (request 0 400 false) emptyStore 1 media1 (sec 300) 0 (sec 400)
                    eq_refl eq_refl eq_refl eq_refl eq_refl)).
    right. right. right. vm_compute. reflexivity.
  - apply (proj2 (NewSegment_cut_check schStorage mediaStorage
                    (mkSegment None (Some 1) (Some (at_ 0)) (Some (sec 50))
                               (Some (sec 10)) false)
                    emptyStore 1 media1 (sec 300) (sec 50) (sec 10)
                    eq_refl eq_refl eq_refl eq_refl eq_refl));
      vm_compute; first [reflexivity | easy].
Defined.

Lemma DeleteSegment_protection_signal_witness :
  memstore.DeleteSegment_ 1 scheduleAprotected
  = (Returned None, emptyStore_next 2,
     [CallIsSegmentProtected 1; CallDeleteSegment 1; NotifyProtected])
  /\ memstore.DeleteSegment_ 1 scheduleA
     = (Returned None, emptyStore_next 2,
        [CallIsSegmentProtected 1; CallDeleteSegment 1])
  /\ memstore.DeleteSegment_ 7 scheduleA
     = (Returned (Some service_ErrSegmentNotFound), scheduleA,
        [CallIsSegmentProtected 7]).
Proof.
  split; [|split].
  - apply (proj2 (proj2 (DeleteSegment_protection_signal schStorage 1 scheduleAprotected))
             true (emptyStore_next 2)); reflexivity.
  - apply (proj2 (proj2 (DeleteSegment_protection_signal schStorage 1 scheduleA))
             false (emptyStore_next 2)); reflexivity.
  - apply (proj1 (DeleteSegment_protection_signal schStorage 7 scheduleA)
             storage_ErrSegmentNotFound); reflexivity.
Defined.

Lemma ScheduleCut_error_returns_empty_witness :
  memstore.ScheduleCut_ (at_ 0) (at_ 10) unreachableStore
  = (Returned ([], Some (fmt_Errorf opScheduleCut connectionLost)), unreachableStore,
     [CallScheduleCut (at_ 0) (at_ 10)])
  /\ exists cause t,
      memstore.ScheduleCut_ (at_ 0) (at_ 10) flagsUnreadable
      = (Returned ([], Some (fmt_Errorf opScheduleCut cause)), flagsUnreadable, t).
Proof.
  split.
  - apply (proj1 (proj2 (ScheduleCut_error_returns_empty
                           schStorage (at_ 0) (at_ 10) unreachableStore))).
    reflexivity.
  - apply (proj2 (proj2 (ScheduleCut_error_returns_empty
                           schStorage (at_ 0) (at_ 10) flagsUnreadable))
             [segmentA]).
    + reflexivity.
    + constructor; [discriminate|constructor].
    + constructor. exists 1, connectionLost. split; reflexivity.
Defined.



(** C1, at a failing input.  The schedule holds B = [10 s, 15 s],
    unprotected, and a protected segment over [0 s, 10 s] is inserted:
    B starts where the new segment ends, the store's range query returns
    it, and [NewSegment] deletes it.  The test of the clearing loop
    compares the found segment's start with the found segment's own end,
    not with the end of the new segment. *)
Theorem NewSegment_deletes_segment_at_new_end :
  adjacent (request 0 10 true) segmentB
  /\ memstore.ScheduleCut (at_ 0) (at_ 10) scheduleB = Ok [segmentB]
  /\ memstore.NewSegment (request 0 10 true) scheduleB
     = (Returned (2, None), store [stored 2 0 10] [2] 3,
        [ CallMedia 1; CallScheduleCut (at_ 0) (at_ 10); CallIsSegmentProtected 1;
          CallIsSegmentProtected 1; CallDeleteSegment 1;
          CallSaveSegment (request 0 10 true); CallProtectSegment 2;
          NotifyProtected; SendAllSegments (request 0 10 true) ]).
Proof.
  split; [|split].
  - left. exists (at_ 10). split; reflexivity.
  - reflexivity.
  - vm_compute. reflexivity.
Qed.

(** C2, at a failing input.  An unprotected segment is inserted into an
    empty schedule on a store that cannot save: the payload is published
    on the all-segments channel before the save is attempted, the save
    fails, and [NewSegment] returns the wrapped fault. *)
Theorem NewSegment_publishes_before_save :
  memstore.NewSegment (request 0 60 false) readOnlyStore
  = (Returned (0, Some (fmt_Errorf opNewSegment diskFull)), readOnlyStore,
     [ CallMedia 1; CallScheduleCut (at_ 0) (at_ 60);
       SendAllSegments (request 0 60 false);
       CallSaveSegment (request 0 60 false) ]).
Proof. vm_compute. reflexivity. Qed.

End Concrete.

(** * Properties of the serialized start *)

Section TimeFormatProperties.

Import shape.

Lemma appendFormat_TimeFormat render :
  time.appendFormat render O models.TimeFormat
  = render time.stdLongYear ++ "-"%char
     :: render time.stdZeroMonth ++ "-"%char
     :: render time.stdZeroDay ++ "T"%char
     :: render time.stdHour ++ ":"%char
     :: render time.stdZeroMinute ++ ":"%char
     :: render time.stdZeroSecond
     ++ render time.stdFracSecond9
     ++ render time.stdNumColonTZ ++ [].
Proof. vm_compute. reflexivity. Qed.

(** *** Digits *)

Lemma isDigit_digitChar d : 0 <= d < 10 -> isDigit (time.digitChar d) = true.
Proof.
  intros H.
  assert (E : d = 0 \/ d = 1 \/ d = 2 \/ d = 3 \/ d = 4 \/ d = 5 \/ d = 6
              \/ d = 7 \/ d = 8 \/ d = 9) by lia.
  repeat (destruct E as [->|E]; [reflexivity|]). subst. reflexivity.
Qed.

Lemma digitChar_zero d : 0 <= d < 10 -> time.digitChar d = "0"%char -> d = 0.
Proof.
  intros H.
  assert (E : d = 0 \/ d = 1 \/ d = 2 \/ d = 3 \/ d = 4 \/ d = 5 \/ d = 6
              \/ d = 7 \/ d = 8 \/ d = 9) by lia.
  repeat (destruct E as [->|E]; [vm_compute; congruence|]).
  subst. vm_compute. congruence.
Qed.

Lemma lowDigits_length n : forall x, List.length (time.lowDigits n x) = n.
Proof.
  induction n as [|n IH]; intros x; cbn [time.lowDigits]; [reflexivity|].
  rewrite length_app, IH. cbn. lia.
Qed.

Lemma lowDigits_digits n :
  forall x, Forall (fun c => isDigit c = true) (time.lowDigits n x).
Proof.
  induction n as [|n IH]; intros x; cbn [time.lowDigits]; [constructor|].
  apply Forall_app. split; [apply IH|].
  constructor; [|constructor].
  apply isDigit_digitChar. apply Z.mod_pos_bound. lia.
Qed.

Lemma countDigits_le k :
  forall fuel x, 0 <= x < 10 ^ Z.of_nat (S k) -> (time.countDigits fuel x <= S k)%nat.
Proof.
  induction k as [|k IH]; intros fuel x H.
  - change (10 ^ Z.of_nat 1) with 10 in H.
    destruct fuel; cbn [time.countDigits]; [lia|].
    replace (x <? 10) with true by (symmetry; apply Z.ltb_lt; lia). lia.
  - destruct fuel; cbn [time.countDigits]; [lia|].
    destruct (x <? 10); [lia|].
    apply le_n_S. apply IH.
    rewrite Nat2Z.inj_succ, Z.pow_succ_r in H by lia.
    split; [apply Z.div_pos; lia|].
    apply Z.div_lt_upper_bound; lia.
Qed.

Lemma appendInt_lowDigits k x :
  0 <= x < 10 ^ Z.of_nat (S k) -> time.appendInt x (S k) = time.lowDigits (S k) x.
Proof.
  intros H. unfold time.appendInt, time.digitsLen.
  replace (x <? 0) with false by (symmetry; apply Z.ltb_ge; lia).
  rewrite Z.abs_eq by lia.
  rewrite Nat.max_l by (apply countDigits_le; assumption).
  reflexivity.
Qed.

(** *** Matching *)

Lemma matches_digits l :
  forall p s,
    Forall (fun c => isDigit c = true) l ->
    matches p s = true ->
    matches (repeat D (List.length l) ++ p) (l ++ s) = true.
Proof.
  induction l as [|c l IH]; intros p s Hl Hp; [exact Hp|].
  inversion Hl as [|? ? Hc Hl']; subst.
  cbn [List.length repeat app matches]. rewrite Hc. cbn [andb]. apply IH; assumption.
Qed.

Lemma matches_char c p s :
  matches p s = true -> matches (C c :: p) (c :: s) = true.
Proof. intros H. cbn [matches]. rewrite Ascii.eqb_refl, H. reflexivity. Qed.

Lemma matches_run l :
  forall p s,
    l <> [] ->
    Forall (fun c => isDigit c = true) l ->
    matches p s = true ->
    matches (Digits :: p) (l ++ s) = true.
Proof.
  induction l as [|c l IH]; intros p s Hne Hl Hp; [congruence|].
  inversion Hl as [|? ? Hc Hl']; subst.
  cbn [app matches]. rewrite Hc. cbn [andb].
  destruct l as [|c' l].
  - cbn [app]. rewrite Hp. apply orb_true_r.
  - rewrite (IH p s); [reflexivity|discriminate|assumption|assumption].
Qed.

Lemma matches_two x p s :
  0 <= x < 100 ->
  matches p s = true ->
  matches (D :: D :: p) (time.appendInt x 2 ++ s) = true.
Proof.
  intros Hx Hp. rewrite (appendInt_lowDigits 1) by (change (10 ^ Z.of_nat 2) with 100; lia).
  pose proof (matches_digits (time.lowDigits 2 x) p s (lowDigits_digits 2 x) Hp) as H.
  rewrite lowDigits_length in H. exact H.
Qed.

Lemma matches_four x p s :
  0 <= x <= 9999 ->
  matches p s = true ->
  matches (D :: D :: D :: D :: p) (time.appendInt x 4 ++ s) = true.
Proof.
  intros Hx Hp.
  rewrite (appendInt_lowDigits 3) by (change (10 ^ Z.of_nat 4) with 10000; lia).
  pose proof (matches_digits (time.lowDigits 4 x) p s (lowDigits_digits 4 x) Hp) as H.
  rewrite lowDigits_length in H. exact H.
Qed.

(** *** The calendar fields *)

Lemma civil_bounds days :
  1 <= snd (fst (time.civil days)) <= 12 /\ 1 <= snd (time.civil days) <= 31.
Proof.
  unfold time.civil. cbv zeta. cbn [fst snd].
  set (z := days + 719468).
  set (era := z / 146097).
  set (doe := z - era * 146097).
  assert (Hdoe : 0 <= doe <= 146096).
  { subst doe era. pose proof (Z.div_mod z 146097 ltac:(lia)).
    pose proof (Z.mod_pos_bound z 146097 ltac:(lia)). lia. }
  clearbody doe. clear z era.
  set (yoe := (doe - doe / 1460 + doe / 36524 - doe / 146096) / 365).
  set (doy := doe - (365 * yoe + yoe / 4 - yoe / 100)).
  assert (Hdoy : 0 <= doy <= 365) by (subst doy yoe; Z.div_mod_to_equations; lia).
  clearbody doy. clear yoe.
  set (mp := (5 * doy + 2) / 153).
  assert (Hmp : 0 <= mp <= 11) by (subst mp; Z.div_mod_to_equations; lia).
  split.
  - destruct (mp <? 10) eqn:E; [apply Z.ltb_lt in E | apply Z.ltb_ge in E]; lia.
  - subst mp. Z.div_mod_to_equations. lia.
Qed.

Lemma clock_bounds t :
  0 <= time.Hour t < 24 /\ 0 <= time.Minute t < 60 /\ 0 <= time.Sec t < 60
  /\ 0 <= time.Nanosecond t < 1000000000.
Proof.
  unfold time.Hour, time.Minute, time.Sec, time.Nanosecond, time.Second.
  generalize (time.wallSeconds t) (time.unixNano t). intros w n.
  repeat split; Z.div_mod_to_equations; lia.
Qed.

Lemma matches_seconds t p s :
  0 <= time.Year t <= 9999 ->
  matches p s = true ->
  matches (seconds ++ p)
          (time.appendInt (time.Year t) 4 ++ "-"%char
           :: time.appendInt (time.Month t) 2 ++ "-"%char
           :: time.appendInt (time.Day t) 2 ++ "T"%char
           :: time.appendInt (time.Hour t) 2 ++ ":"%char
           :: time.appendInt (time.Minute t) 2 ++ ":"%char
           :: time.appendInt (time.Sec t) 2 ++ s) = true.
Proof.
  intros Hy Hp.
  destruct (civil_bounds (time.wallSeconds t / 86400)) as [Hm Hd].
  fold (time.Month t) in Hm. fold (time.Day t) in Hd.
  destruct (clock_bounds t) as (Hh & Hmin & Hs & _).
  unfold seconds. cbn [app].
  apply matches_four; [assumption|]. apply matches_char.
  apply matches_two; [lia|]. apply matches_char.
  apply matches_two; [lia|]. apply matches_char.
  apply matches_two; [lia|]. apply matches_char.
  apply matches_two; [lia|]. apply matches_char.
  apply matches_two; [lia|]. exact Hp.
Qed.

Lemma matches_zone offset p s :
  -360000 < offset < 360000 ->
  matches p s = true ->
  matches (zone ++ p) (time.appendNumColonTZ offset ++ s) = true.
Proof.
  intros Ho Hp. unfold time.appendNumColonTZ, zone. cbv zeta.
  set (z := Z.quot offset 60).
  assert (Hz : -6000 < z < 6000)
    by (subst z; Z.to_euclidean_division_equations; lia).
  clearbody z.
  assert (Hh : 0 <= Z.quot (Z.abs z) 60 < 100)
    by (Z.to_euclidean_division_equations; lia).
  assert (Hm : 0 <= Z.rem (Z.abs z) 60 < 100)
    by (Z.to_euclidean_division_equations; lia).
  rewrite <- !app_assoc.
  destruct (z <? 0); cbn [app matches Ascii.eqb Bool.eqb orb andb];
    (apply matches_two; [assumption|]); apply matches_char;
    (apply matches_two; [assumption|]); exact Hp.
Qed.

(** *** The fractional part *)

Lemma trimRight_app_last c l :
  forall x, x <> c -> time.trimRight c (l ++ [x]) = l ++ [x].
Proof.
  induction l as [|y l IH]; intros x Hx; cbn [app time.trimRight].
  - apply Ascii.eqb_neq in Hx. rewrite Hx. reflexivity.
  - rewrite IH by assumption. destruct l; reflexivity.
Qed.

Lemma trimRight_spec c l :
  exists k,
    l = time.trimRight c l ++ repeat c k
    /\ (time.trimRight c l = []
        \/ exists l' x, time.trimRight c l = l' ++ [x] /\ x <> c).
Proof.
  induction l as [|y l (k & Hl & Htr)]; [exists O; split; [reflexivity|left; reflexivity]|].
  cbn [time.trimRight].
  destruct (time.trimRight c l) as [|z r] eqn:E.
  - destruct (Ascii.eqb y c) eqn:Ey.
    + apply Ascii.eqb_eq in Ey. subst y. exists (S k).
      split; [cbn [app repeat]; f_equal; exact Hl|left; reflexivity].
    + exists k. split; [cbn [app]; f_equal; exact Hl|].
      right. exists [], y. split; [reflexivity|]. apply Ascii.eqb_neq. exact Ey.
  - exists k. split; [cbn [app]; f_equal; exact Hl|].
    right. destruct Htr as [Htr|(l' & x & Htr & Hx)]; [discriminate|].
    exists (y :: l'), x. split; [cbn [app]; f_equal; exact Htr|exact Hx].
Qed.

Lemma lowDigits_zeros k :
  forall x, Forall (fun c => c = "0"%char) (time.lowDigits k x) ->
            x mod 10 ^ Z.of_nat k = 0.
Proof.
  induction k as [|k IH]; intros x H.
  - apply Z.mod_1_r.
  - cbn [time.lowDigits] in H. apply Forall_app in H as [Hhi Hlo].
    inversion Hlo as [|? ? Hd _]; subst.
    apply digitChar_zero in Hd; [|apply Z.mod_pos_bound; lia].
    apply IH in Hhi.
    rewrite Nat2Z.inj_succ, Z.pow_succ_r by lia.
    rewrite Z.rem_mul_r by lia. lia.
Qed.

Lemma appendNano9_nonzero n :
  0 < n < 1000000000 ->
  exists ds,
    time.appendNano9 n = "."%char :: ds
    /\ (1 <= List.length ds <= 9)%nat
    /\ Forall (fun c => isDigit c = true) ds
    /\ last ds "0"%char <> "0"%char.
Proof.
  intros Hn. unfold time.appendNano9.
  replace (n =? 0) with false by (symmetry; apply Z.eqb_neq; lia).
  destruct (trimRight_spec "0" (time.lowDigits 9 n)) as (k & Hl & Htr).
  pose proof (lowDigits_digits 9 n) as Hd.
  pose proof (lowDigits_length 9 n) as Hlen.
  destruct Htr as [Htr|(l' & x & Htr & Hx)].
  - exfalso. rewrite Htr in Hl. cbn [app] in Hl.
    assert (Hz : n mod 10 ^ Z.of_nat 9 = 0).
    { apply lowDigits_zeros. rewrite Hl. apply Forall_forall.
      intros c Hc. apply repeat_spec in Hc. exact Hc. }
    change (10 ^ Z.of_nat 9) with 1000000000 in Hz.
    rewrite Z.mod_small in Hz by lia. lia.
  - assert (Hin : time.trimRight "0" ("."%char :: time.lowDigits 9 n)
                  = ("."%char :: l') ++ [x])
      by (cbn [time.trimRight]; rewrite Htr; destruct l'; reflexivity).
    rewrite Htr in Hl. rewrite Hl in Hd, Hlen.
    apply Forall_app in Hd as [Hd _].
    rewrite !length_app in Hlen. cbn [List.length] in Hlen.
    assert (Hdot : x <> "."%char).
    { apply Forall_app in Hd as [_ Hx']. inversion Hx' as [|? ? Hdx _]; subst.
      intros ->. vm_compute in Hdx. discriminate. }
    exists (l' ++ [x]).
    rewrite Hin, trimRight_app_last by assumption.
    repeat split.
    + rewrite length_app. cbn [List.length]. lia.
    + rewrite length_app. cbn [List.length]. lia.
    + exact Hd.
    + rewrite last_last. exact Hx.
Qed.

Lemma Format_TimeFormat t :
  time.Format t models.TimeFormat
  = string_of_list_ascii
      (time.secondsText t ++ time.appendNano9 (time.Nanosecond t)
                     ++ time.appendNumColonTZ (time.zoneOffset t)).
Proof.
  unfold time.Format. rewrite appendFormat_TimeFormat.
  cbn [time.appendStd]. unfold time.secondsText. f_equal.
  rewrite app_nil_r.
  repeat (rewrite <- app_assoc; cbn [app]). reflexivity.
Qed.

Lemma matches_secondsText t p s :
  0 <= time.Year t <= 9999 ->
  matches p s = true ->
  matches (seconds ++ p) (time.secondsText t ++ s) = true.
Proof.
  intros Hy Hp. unfold time.secondsText.
  repeat (rewrite <- app_assoc; cbn [app]).
  apply matches_seconds; assumption.
Qed.

(** C8, amended. [MarshalJSON] writes a non-nil start with the layout
    [2006-01-02T15:04:05.999999999-07:00]: for a year of four digits and
    a zone offset under a hundred hours, the member is the date and the
    time of day to the second, then the fraction, then a numeric offset
    of the form sign, hours, colon, minutes.  The fraction is absent
    when the nanosecond is zero; otherwise it is a dot followed by one
    to nine digits, the last of which is not a zero. *)
Theorem MarshalJSON_start_layout s start :
  models.Start s = Some start ->
  0 <= time.Year start <= 9999 ->
  -360000 < time.zoneOffset start < 360000 ->
  exists secs frac tz,
    models.MarshalJSON s
    = Returned (models.json_Marshal
                  (models.marshalFields s (string_of_list_ascii (secs ++ frac ++ tz))),
                None)
    /\ models.startMember s = Returned (string_of_list_ascii (secs ++ frac ++ tz))
    /\ matches seconds secs = true
    /\ matches zone tz = true
    /\ (time.Nanosecond start = 0 -> frac = [])
    /\ (time.Nanosecond start <> 0 ->
        exists ds,
          frac = "."%char :: ds
          /\ (1 <= List.length ds <= 9)%nat
          /\ Forall (fun c => isDigit c = true) ds
          /\ last ds "0"%char <> "0"%char)
    /\ hasShape (if time.Nanosecond start =? 0 then withoutFraction else withFraction)
                (string_of_list_ascii (secs ++ frac ++ tz)) = true.
Proof.
  intros Hstart Hy Ho.
  exists (time.secondsText start), (time.appendNano9 (time.Nanosecond start)),
    (time.appendNumColonTZ (time.zoneOffset start)).
  pose proof (matches_zone (time.zoneOffset start) [] [] Ho eq_refl) as Hz.
  rewrite !app_nil_r in Hz.
  destruct (clock_bounds start) as (_ & _ & _ & Hn).
  split; [|split; [|split; [|split; [|split; [|split]]]]].
  - unfold models.MarshalJSON. rewrite Hstart, Format_TimeFormat. reflexivity.
  - unfold models.startMember. rewrite Hstart, Format_TimeFormat. reflexivity.
  - pose proof (matches_secondsText start [] [] Hy eq_refl) as H.
    rewrite !app_nil_r in H. exact H.
  - exact Hz.
  - intros ->. reflexivity.
  - intros Hne. apply appendNano9_nonzero. lia.
  - unfold hasShape. rewrite list_ascii_of_string_of_list_ascii.
    destruct (time.Nanosecond start =? 0) eqn:E.
    + apply Z.eqb_eq in E. rewrite E. cbn [time.appendNano9 Z.eqb app].
      apply matches_secondsText; assumption.
    + apply Z.eqb_neq in E.
      destruct (appendNano9_nonzero (time.Nanosecond start) ltac:(lia))
        as (ds & -> & Hlen & Hd & _).
      unfold withFraction. apply matches_secondsText; [assumption|].
      cbn [app]. apply matches_char. apply matches_run; [|assumption|assumption].
      destruct ds; [cbn in Hlen; lia|discriminate].
Qed.

End TimeFormatProperties.

(** * Serialized start on concrete segments *)

Section ConcreteStart.

Import models shape memstore.

(** C8, counterexample.  A segment that starts on a whole second is
    serialized without any fractional part. *)
Lemma MarshalJSON_start_without_fraction :
  Start wholeSecond = Some (time.mkTime 0 0)
  /\ startMember wholeSecond = Returned "1970-01-01T00:00:00+00:00"
  /\ hasShape microseconds "1970-01-01T00:00:00+00:00" = false
  /\ hasShape withFraction "1970-01-01T00:00:00+00:00" = false
  /\ hasShape withoutFraction "1970-01-01T00:00:00+00:00" = true.
Proof. repeat split; vm_compute; reflexivity. Qed.

Lemma MarshalJSON_start_layout_witness :
  exists v,
    startMember halfSecond = Returned v
    /\ hasShape withFraction v = true.
Proof.
  assert (Hy : 0 <= time.Year halfPast <= 9999) by (vm_compute; easy).
  assert (Ho : -360000 < time.zoneOffset halfPast < 360000) by (vm_compute; easy).
  destruct (MarshalJSON_start_layout halfSecond halfPast eq_refl Hy Ho)
    as (secs & frac & tz & _ & Hm & _ & _ & _ & _ & Hs).
  exists (string_of_list_ascii (secs ++ frac ++ tz)).
  split; [exact Hm|exact Hs].
Defined.

Example MarshalJSON_start_halfSecond :
  startMember halfSecond = Returned "2023-11-15T01:13:20.5+03:00"
  /\ hasShape microseconds "2023-11-15T01:13:20.5+03:00" = false.
Proof. split; vm_compute; reflexivity. Qed.

End ConcreteStart.

(** * Further properties of the schedule engine *)

Section FurtherProperties.

Import models schedule schedule_rest.

Context {St : Type}.
Variable schStorage : ScheduleStorage St.
Variable mediaStorage : MediaStorage St.
Variable rest : ScheduleStorageRest St.

Abbreviation ScheduleCut := (schedule.ScheduleCut schStorage).
Abbreviation ScheduleCut_range := (schedule.ScheduleCut_range schStorage).
Abbreviation DeleteSegment := (schedule.DeleteSegment schStorage).
Abbreviation NewSegment_range := (schedule.NewSegment_range schStorage).
Abbreviation NewSegment_place := (schedule.NewSegment_place schStorage).
Abbreviation NewSegment := (schedule.NewSegment schStorage mediaStorage).
Abbreviation intersected := (schedule.intersected schStorage mediaStorage).
Abbreviation admitted := (schedule_rest.admitted mediaStorage).
Abbreviation flagged := (schedule_rest.flagged schStorage).

Ltac inv H := inversion H; subst; clear H.

Ltac run :=
  repeat (cbn [ret emit deref lift chans_Send chans_Notify storage_Media
                 storage_ScheduleCut storage_IsSegmentProtected
                 storage_SaveSegment storage_DeleteSegment storage_ProtectSegment
                 app fst snd] in *;
          unfold bind, ret, emit, deref, lift, chans_Send, chans_Notify,
            storage_Media, storage_ScheduleCut, storage_IsSegmentProtected,
            storage_SaveSegment, storage_DeleteSegment, storage_ProtectSegment in *).

(** ** ScheduleCut *)

Lemma ScheduleCut_range_flagged segments :
  forall st res st' t,
    ScheduleCut_range segments st = (Returned (Ok res), st', t) ->
    Forall2 (flagged st) segments res /\ t = fetches segments.
Proof.
  induction segments as [|segment tl IH]; intros st res st' t H;
    cbn [schedule.ScheduleCut_range] in H; run.
  - inv H. split; [constructor|reflexivity].
  - destruct (ID segment) as [id|] eqn:Eid; [|discriminate].
    destruct (sch_IsSegmentProtected schStorage id st) as [isProt|err] eqn:Ep;
      [|discriminate].
    destruct (ScheduleCut_range tl st) as [[r1 st1] t1] eqn:E.
    destruct r1 as [[tl'|err]|]; inv H.
    destruct (ScheduleCut_range_readonly _ _ _ _ _ _ E) as [-> _].
    apply IH in E as [Hf ->]. split.
    + constructor; [|assumption]. exists id, isProt. auto.
    + unfold fetches. cbn [flat_map]. rewrite Eid. rewrite app_nil_r. reflexivity.
Qed.

Lemma ScheduleCut_range_of_flagged segments res st :
  Forall2 (flagged st) segments res ->
  ScheduleCut_range segments st = (Returned (Ok res), st, fetches segments).
Proof.
  induction 1 as [|s s' l l' (id & isProt & Hid & Hp & ->) _ IH];
    cbn [schedule.ScheduleCut_range]; run; [reflexivity|].
  rewrite Hid, Hp, IH. unfold fetches. cbn [flat_map]. rewrite Hid, app_nil_r.
  reflexivity.
Qed.

(** X1. [ScheduleCut] succeeds exactly when the store's range query
    succeeds and the protection fetch succeeds for every segment found;
    it then returns the segments found, in the store's order, each with
    the protection flag the store holds for it and otherwise unchanged,
    after one fetch per segment, in order. *)
Theorem ScheduleCut_success_flags start stop st res st' t :
  ScheduleCut start stop st = (Returned (res, None), st', t)
  <-> exists found,
      sch_ScheduleCut schStorage start stop st = Ok found
      /\ Forall2 (flagged st) found res
      /\ st' = st
      /\ t = CallScheduleCut start stop :: fetches found.
Proof.
  unfold schedule.ScheduleCut. run. split.
  - intros H.
    destruct (sch_ScheduleCut schStorage start stop st) as [found|err]; [|discriminate].
    destruct (ScheduleCut_range found st) as [[r1 st1] t1] eqn:E.
    destruct r1 as [[res'|err]|]; inv H.
    destruct (ScheduleCut_range_readonly _ _ _ _ _ _ E) as [-> _].
    apply ScheduleCut_range_flagged in E as [Hf ->].
    exists found. rewrite app_nil_r. auto.
  - intros (found & -> & Hf & -> & ->).
    rewrite (ScheduleCut_range_of_flagged _ _ _ Hf), app_nil_r. reflexivity.
Qed.

Lemma fetches_app l1 l2 : fetches (l1 ++ l2) = fetches l1 ++ fetches l2.
Proof. unfold fetches. apply flat_map_app. Qed.

(** X2. [ScheduleCut] stops at the first protection fetch that fails:
    the error wraps that fault, the slice is empty, and no fetch is made
    for the segments after the failing one. *)
Theorem ScheduleCut_first_failure start stop st before failing after id cause :
  sch_ScheduleCut schStorage start stop st = Ok (before ++ failing :: after) ->
  Forall (fun s => exists s', flagged st s s') before ->
  ID failing = Some id ->
  sch_IsSegmentProtected schStorage id st = Err cause ->
  ScheduleCut start stop st
  = (Returned ([], Some (fmt_Errorf opScheduleCut cause)), st,
     CallScheduleCut start stop :: fetches before ++ [CallIsSegmentProtected id]).
Proof.
  intros Hcut Hbefore Hid Hcause.
  assert (Hr : ScheduleCut_range (before ++ failing :: after) st
               = (Returned (Err cause), st, fetches before ++ [CallIsSegmentProtected id])).
  { clear Hcut. induction Hbefore as [|s l (s' & i & p & Hi & Hp & _) _ IH];
      cbn [app schedule.ScheduleCut_range]; run.
    - rewrite Hid, Hcause. reflexivity.
    - rewrite Hi, Hp, IH, app_nil_r. unfold fetches. cbn [flat_map]. rewrite Hi.
      reflexivity. }
  unfold schedule.ScheduleCut. run. rewrite Hcut, Hr, app_nil_r. reflexivity.
Qed.

(** ** NewSegment: the checks *)

Lemma errors_Is_refl e : errors_Is e e = true.
Proof.
  destruct e; cbn [errors_Is];
    match goal with
    | |- context [error_eq_dec ?a ?a] => destruct (error_eq_dec a a); congruence
    end.
Qed.

Lemma errors_Is_wrap op e target :
  errors_Is e target = true -> errors_Is (fmt_Errorf op e) target = true.
Proof.
  intros H. cbn [errors_Is].
  destruct (error_eq_dec (fmt_Errorf op e) target); [reflexivity|exact H].
Qed.

(** X3. When the media lookup fails, [NewSegment] does nothing else,
    whatever the other fields of the request: a lookup error that is
    [storage.ErrMediaNotFound] gives [service.ErrMediaNotFound], any other
    comes back wrapped, so that [errors.Is] still finds it. *)
Theorem NewSegment_media_lookup_failure segment st mediaID cause :
  MediaID segment = Some mediaID ->
  med_Media mediaStorage mediaID st = Err cause ->
  exists err,
    NewSegment segment st = (Returned (0, Some err), st, [CallMedia mediaID])
    /\ (errors_Is cause storage_ErrMediaNotFound = true -> err = service_ErrMediaNotFound)
    /\ (errors_Is cause storage_ErrMediaNotFound = false ->
        err = fmt_Errorf opNewSegment cause /\ errors_Is err cause = true).
Proof.
  intros Hid Hmedia. unfold schedule.NewSegment. run. rewrite Hid, Hmedia.
  destruct (errors_Is cause storage_ErrMediaNotFound) eqn:E.
  - eexists. split; [reflexivity|]. split; [reflexivity|discriminate].
  - eexists. split; [reflexivity|]. split; [discriminate|].
    intros _. split; [reflexivity|]. apply errors_Is_wrap, errors_Is_refl.
Qed.

(** A request that passes the checks continues with the overlap query. *)
Lemma NewSegment_admitted st segment start stop :
  admitted st segment start stop ->
  exists mediaID,
    MediaID segment = Some mediaID
    /\ NewSegment segment st
       = (let '(cut, st1, tq) := ScheduleCut start stop st in
          match cut with
          | Returned (_, Some err) =>
              (Returned (0, Some (fmt_Errorf opNewSegment err)), st1, CallMedia mediaID :: tq)
          | Returned (res, None) =>
              let '(r, st2, t) := NewSegment_place segment start res st1 in
              (r, st2, CallMedia mediaID :: tq ++ t)
          | Panicked => (Panicked, st1, CallMedia mediaID :: tq)
          end).
Proof.
  intros (mediaID & media & duration & beginCut & stopCut &
          Hid & Hmedia & Hdur & Hbegin & Hstop & Hcut & Hle & Hstart & ->).
  exists mediaID. split; [assumption|].
  unfold schedule.NewSegment, cutOutOfBounds, End. run.
  rewrite Hid, Hmedia, Hdur, Hstop, Hbegin, Hstart.
  replace (duration <? stopCut) with false by (symmetry; apply Z.ltb_ge; lia).
  replace (duration <? beginCut) with false by (symmetry; apply Z.ltb_ge; lia).
  replace (beginCut <? 0) with false by (symmetry; apply Z.ltb_ge; lia).
  replace (stopCut <? 0) with false by (symmetry; apply Z.ltb_ge; lia).
  cbn [orb].
  replace (beginCut >? stopCut) with false
    by (symmetry; rewrite Z.gtb_ltb; apply Z.ltb_ge; lia).
  destruct (ScheduleCut start (time.Add start (stopCut - beginCut)) st)
    as [[cut st1] tq].
  destruct cut as [[res [err|]]|]; cbn [app]; rewrite ?app_nil_r; try reflexivity.
  destruct (NewSegment_place segment start res st1) as [[r st2] t]. reflexivity.
Qed.

(** X4. When the overlap query of an admitted request returns an error,
    [NewSegment] returns it wrapped once more, with the store as it was
    and nothing but queries made. *)
Theorem NewSegment_overlap_query_failure st segment start stop res err st' tq :
  admitted st segment start stop ->
  ScheduleCut start stop st = (Returned (res, Some err), st', tq) ->
  exists mediaID,
    NewSegment segment st
    = (Returned (0, Some (fmt_Errorf opNewSegment err)), st, CallMedia mediaID :: tq)
    /\ Forall (fun e => isQuery e = true) tq
    /\ exists cause, err = fmt_Errorf opScheduleCut cause.
Proof.
  intros Hadm Hcut.
  destruct (NewSegment_admitted _ _ _ _ Hadm) as (mediaID & _ & ->).
  destruct (ScheduleCut_readonly _ _ _ _ _ _ _ Hcut) as [-> Hq].
  rewrite Hcut. exists mediaID. split; [reflexivity|]. split; [assumption|].
  unfold schedule.ScheduleCut in Hcut. run.
  destruct (sch_ScheduleCut schStorage start stop st) as [found|cause].
  - destruct (ScheduleCut_range found st) as [[[[found'|cause]|] st1] t1];
      inv Hcut; eauto.
  - inv Hcut. eauto.
Qed.

(** ** NewSegment: the placement *)

Lemma DeleteSegment_calls id st r st' t :
  DeleteSegment id st = (r, st', t) ->
  (forall id', In (CallDeleteSegment id') t -> id' = id)
  /\ (forall err, r = Returned (Some err) ->
        err = service_ErrSegmentNotFound
        \/ exists cause, err = fmt_Errorf opDeleteSegment cause).
Proof.
  unfold schedule.DeleteSegment. run. intros H.
  destruct (sch_IsSegmentProtected schStorage id st) as [isProt|err].
  - destruct (sch_DeleteSegment schStorage id st) as [[err|] st1].
    + destruct (errors_Is err storage_ErrSegmentNotFound); inv H; split;
        try (intros id' [E|[E|[]]]; congruence);
        intros e [= <-]; eauto.
    + destruct isProt; inv H; split;
        try (intros id' [E|[E|[E|[]]]]; congruence);
        try (intros id' [E|[E|[]]]; congruence); discriminate.
  - destruct (errors_Is err storage_ErrSegmentNotFound); inv H; split;
      try (intros id' [E|[]]; congruence);
      intros e [= <-]; eauto.
Qed.

(** One turn of the clearing loop, whatever its test decides: the found
    segment is passed over, or a nil field stops the call, or the segment
    is handed to [DeleteSegment]. *)
Lemma NewSegment_range_head start segm st :
  (forall tl, NewSegment_range start (segm :: tl) st = NewSegment_range start tl st)
  \/ (~ populated segm
      /\ forall tl, NewSegment_range start (segm :: tl) st = (Panicked, st, []))
  \/ (exists id,
        ID segm = Some id
        /\ forall tl,
            NewSegment_range start (segm :: tl) st
            = (let '(r, st1, t1) := DeleteSegment id st in
               match r with
               | Panicked => (Panicked, st1, t1)
               | Returned (Some err) =>
                   if errors_Is err service_ErrSegmentNotFound
                   then let '(r2, st2, t2) := NewSegment_range start tl st1 in
                        (r2, st2, t1 ++ t2)
                   else (Returned (Some (fmt_Errorf opNewSegment err)), st1, t1)
               | Returned None =>
                   let '(r2, st2, t2) := NewSegment_range start tl st1 in
                   (r2, st2, t1 ++ t2)
               end)).
Proof.
  destruct (End segm) as [segmEnd|] eqn:He.
  2:{ right; left. split.
      - intros (_ & Hs & Hb & Hc). unfold End in He.
        destruct (Start segm); [|congruence].
        destruct (StopCut segm); [|congruence].
        destruct (BeginCut segm); congruence.
      - intros tl. cbn [schedule.NewSegment_range]. run. rewrite He. reflexivity. }
  destruct (time.eqb segmEnd start) eqn:E1.
  { left. intros tl. cbn [schedule.NewSegment_range]. run. rewrite He, E1.
    destruct (NewSegment_range start tl st) as [[r2 st2] t2]. reflexivity. }
  destruct (Start segm) as [segmStart|] eqn:Hs.
  2:{ right; left. split; [intros (_ & Hn & _); congruence|].
      intros tl. cbn [schedule.NewSegment_range]. run.
      rewrite He, E1, Hs. reflexivity. }
  destruct (time.eqb segmStart segmEnd) eqn:E2.
  { left. intros tl. cbn [schedule.NewSegment_range]. run. rewrite He, E1, Hs.
    cbn [app]. rewrite E2.
    destruct (NewSegment_range start tl st) as [[r2 st2] t2]. reflexivity. }
  destruct (ID segm) as [id|] eqn:Hid.
  2:{ right; left. split; [intros (Hn & _); congruence|].
      intros tl. cbn [schedule.NewSegment_range]. run.
      rewrite He, E1, Hs. cbn [app]. rewrite E2, Hid. reflexivity. }
  right; right. exists id. split; [reflexivity|]. intros tl.
  cbn [schedule.NewSegment_range]. run.
  rewrite He, E1, Hs. cbn [app]. rewrite E2, Hid.
  destruct (DeleteSegment id st) as [[rd st1] t1].
  destruct rd as [[err|]|]; [| |reflexivity].
  - destruct (errors_Is err service_ErrSegmentNotFound).
    + destruct (NewSegment_range start tl st1) as [[r2 st2] t2]. reflexivity.
    + rewrite app_nil_r. reflexivity.
  - destruct (NewSegment_range start tl st1) as [[r2 st2] t2]. reflexivity.
Qed.

Lemma NewSegment_range_trace start res :
  forall st r st' t,
    NewSegment_range start res st = (r, st', t) ->
    (forall id, In (CallDeleteSegment id) t ->
                exists segm, In segm res /\ ID segm = Some id)
    /\ (forall err, r = Returned (Some err) ->
                    exists cause, err = fmt_Errorf opNewSegment cause).
Proof.
  induction res as [|segm tl IH]; intros st r st' t H.
  - cbn [schedule.NewSegment_range] in H. run. inv H.
    split; [intros id []|discriminate].
  - assert (Hskip : forall r0 st0 t0,
               NewSegment_range start tl st = (r0, st0, t0) ->
               (r0, st0, t0) = (r, st', t) ->
               (forall id, In (CallDeleteSegment id) t ->
                  exists s, In s (segm :: tl) /\ ID s = Some id)
               /\ (forall err, r = Returned (Some err) ->
                     exists cause, err = fmt_Errorf opNewSegment cause)).
    { intros r0 st0 t0 E [= <- <- <-]. apply IH in E as [Hd He]. split; [|exact He].
      intros id Hin. destruct (Hd id Hin) as (s & Hs & Hrest).
      exists s. split; [right; exact Hs|exact Hrest]. }
    cbn [schedule.NewSegment_range] in H. unfold bind at 1 in H. unfold lift in H.
    destruct (End segm) as [segmEnd|] eqn:He;
      [|inv H; split; [intros id []|discriminate]].
    unfold bind at 1 in H.
    destruct (time.eqb segmEnd start) eqn:E1.
    + run. destruct (NewSegment_range start tl st) as [[r0 st0] t0] eqn:E.
      eapply Hskip; [reflexivity|exact H].
    + run. destruct (Start segm) as [segmStart|] eqn:Hs;
        [|inv H; split; [intros id []|discriminate]].
      destruct (time.eqb segmStart segmEnd) eqn:E2.
      * destruct (NewSegment_range start tl st) as [[r0 st0] t0] eqn:E.
        eapply Hskip; [reflexivity|exact H].
      * destruct (ID segm) as [id0|] eqn:Hid;
          [|inv H; split; [intros id []|discriminate]].
        destruct (DeleteSegment id0 st) as [[rd std] td] eqn:Ed.
        destruct (DeleteSegment_calls _ _ _ _ _ Ed) as [Hcalls _].
        destruct (DeleteSegment_events _ _ _ _ _ _ Ed) as [_ [e ->]].
        assert (Hhead : forall id, In (CallDeleteSegment id) td ->
                   exists s, In s (segm :: tl) /\ ID s = Some id).
        { intros id Hin. apply Hcalls in Hin as ->.
          exists segm. split; [left; reflexivity|assumption]. }
        assert (Hgo : forall r0 st0 t0,
                   NewSegment_range start tl std = (r0, st0, t0) ->
                   (r0, st0, td ++ t0) = (r, st', t) ->
                   (forall id, In (CallDeleteSegment id) t ->
                      exists s, In s (segm :: tl) /\ ID s = Some id)
                   /\ (forall err, r = Returned (Some err) ->
                         exists cause, err = fmt_Errorf opNewSegment cause)).
        { intros r0 st0 t0 E [= <- <- <-]. apply IH in E as [Hd He']. split; [|exact He'].
          intros id Hin. apply in_app_or in Hin as [Hin|Hin]; [auto|].
          destruct (Hd id Hin) as (s & Hs' & Hrest).
          exists s. split; [right; exact Hs'|exact Hrest]. }
        destruct e as [err|].
        -- destruct (errors_Is err service_ErrSegmentNotFound).
           ++ destruct (NewSegment_range start tl std) as [[r0 st0] t0] eqn:E.
              eapply Hgo; [reflexivity|exact H].
           ++ inv H. rewrite app_nil_r. split; [exact Hhead|].
              intros e [= <-]. eauto.
        -- destruct (NewSegment_range start tl std) as [[r0 st0] t0] eqn:E.
           eapply Hgo; [reflexivity|exact H].
Qed.

(** What a placement returns and calls. *)
Lemma NewSegment_place_trace segment start res st r st' t :
  NewSegment_place segment start res st = (r, st', t) ->
  (forall v err, r = Returned (v, Some err) ->
     v = 0 /\ (err = service_ErrSegmentIntersection
               \/ exists cause, err = fmt_Errorf opNewSegment cause))
  /\ (forall id, In (CallDeleteSegment id) t ->
        Protected segment = true
        /\ Forall (fun s => Protected s = false) res
        /\ exists segm, In segm res /\ ID segm = Some id).
Proof.
  unfold schedule.NewSegment_place. intros H.
  destruct (Protected segment) eqn:Hprot; cbn [negb] in H.
  - destruct (firstProtected res) as [found|] eqn:Efound.
    + unfold End in H. run.
      destruct (Start found); [|inv H; split; [discriminate|intros id []]].
      destruct (StopCut found); [|inv H; split; [discriminate|intros id []]].
      destruct (BeginCut found); inv H; (split; [|intros id []]); try discriminate.
      intros v err [= <- <-]. auto.
    + assert (Hall : Forall (fun s => Protected s = false) res).
      { apply Forall_forall. intros s Hs.
        pose proof (find_none _ _ Efound s Hs) as Hn. exact Hn. }
      unfold bind at 1 in H.
      destruct (NewSegment_range start res st) as [[rr str] tr] eqn:Hrange.
      destruct (NewSegment_range_trace _ _ _ _ _ _ Hrange) as [Hdel Herr].
      assert (Hdel' : forall t2, (forall id, ~ In (CallDeleteSegment id) t2) ->
                 forall id, In (CallDeleteSegment id) (tr ++ t2) ->
                   true = true /\ Forall (fun s => Protected s = false) res
                   /\ exists segm, In segm res /\ ID segm = Some id).
      { intros t2 Hno id Hin. apply in_app_or in Hin as [Hin|Hin]; [|elim (Hno id Hin)].
        auto. }
      destruct rr as [[err|]|].
      * run. inv H. split.
        -- intros v e [= <- <-]. split; [reflexivity|]. right. apply Herr. reflexivity.
        -- apply Hdel'. intros id [].
      * run. destruct (sch_SaveSegment schStorage segment str) as [[id|err] sts].
        -- destruct (sch_ProtectSegment schStorage id sts) as [[err|] stp]; inv H; split;
             try (intros v e [= <- <-]; eauto); try discriminate;
             apply Hdel'; intros i Hin; cbn in Hin; intuition discriminate.
        -- inv H. split; [intros v e [= <- <-]; eauto|].
           apply Hdel'. intros i Hin; cbn in Hin; intuition discriminate.
      * inv H. split; [discriminate|].
        intros id Hin. rewrite <- (app_nil_r t) in Hin. revert id Hin.
        apply Hdel'. intros id [].
  - destruct (0 <? Z.of_nat (List.length res)).
    + run. inv H. split; [|intros id []]. intros v err [= <- <-]. auto.
    + run. destruct (sch_SaveSegment schStorage segment st) as [[id|err] sts];
        inv H; split; try discriminate;
        try (intros v e [= <- <-]; eauto);
        intros i Hin; cbn in Hin; intuition discriminate.
Qed.

(** X5. An error from [NewSegment] comes with the id 0 and is one of the
    four sentinels [ErrMediaNotFound], [ErrCutOutOfBounds],
    [ErrBeginAfterStop], [ErrSegmentIntersection] of package [service], or
    an error wrapped under the name of the operation; a bare storage
    error is never returned. *)
Theorem NewSegment_error_kinds segment st v err st' t :
  NewSegment segment st = (Returned (v, Some err), st', t) ->
  v = 0
  /\ (err = service_ErrMediaNotFound
      \/ err = service_ErrCutOutOfBounds
      \/ err = service_ErrBeginAfterStop
      \/ err = service_ErrSegmentIntersection
      \/ exists cause, err = fmt_Errorf opNewSegment cause).
Proof.
  intros H. unfold schedule.NewSegment, cutOutOfBounds in H. run.
  destruct (MediaID segment) as [mediaID|] eqn:Hid; [|discriminate].
  destruct (med_Media mediaStorage mediaID st) as [media|e].
  2:{ destruct (errors_Is e storage_ErrMediaNotFound); inv H; eauto 10. }
  destruct (Duration media) as [duration|]; [|discriminate].
  destruct (StopCut segment) as [stopCut|] eqn:Hstop; [|discriminate].
  destruct (duration <? stopCut).
  { destruct (BeginCut segment); inv H. auto. }
  destruct (BeginCut segment) as [beginCut|] eqn:Hbegin; [|discriminate].
  destruct ((duration <? beginCut) || (beginCut <? 0) || (stopCut <? 0))%bool;
    [inv H; auto|].
  destruct (beginCut >? stopCut); [inv H; auto|].
  destruct (Start segment) as [start|] eqn:Hstart; [|discriminate].
  unfold End in H. rewrite Hstart, Hstop, Hbegin in H.
  destruct (ScheduleCut start (time.Add start (stopCut - beginCut)) st)
    as [[rc stc] tc].
  destruct rc as [[res [e|]]|]; [inv H; eauto 10| |discriminate].
  destruct (NewSegment_place segment start res stc) as [[rp stp] tp] eqn:Hplace.
  destruct (NewSegment_place_trace _ _ _ _ _ _ _ Hplace) as [Herr _].
  inv H. destruct (Herr _ _ eq_refl) as [-> [->|Hw]]; auto 10.
Qed.

(** X6. An unprotected insertion never deletes, never sets a protection
    and never signals a protection change: beside its queries it only
    publishes the request and saves it.  The store is either left as it
    was or is what one [SaveSegment] on the initial store gives, and the
    id returned on success is the id of that save. *)
Theorem NewSegment_unprotected_effect segment st r st' t :
  Protected segment = false ->
  NewSegment segment st = (r, st', t) ->
  Forall (fun e => isQuery e = true
                   \/ e = SendAllSegments segment
                   \/ e = CallSaveSegment segment) t
  /\ (st' = st \/ exists saved, sch_SaveSegment schStorage segment st = (saved, st'))
  /\ (forall id, r = Returned (id, None) ->
                 sch_SaveSegment schStorage segment st = (Ok id, st')).
Proof.
  intros Hprot H.
  destruct (NewSegment_cases _ _ _ _ _ _ _ H)
    as [(-> & Hq & Hfail) | (start & stop & res & t0 & t1 & _ & Hq & -> & Hplace)].
  - split; [|split].
    + eapply Forall_impl; [|exact Hq]. intros e He. left. exact He.
    + left. reflexivity.
    + intros id ->. elim (Hfail id eq_refl).
  - assert (Hq' : Forall (fun e => isQuery e = true \/ e = SendAllSegments segment
                                   \/ e = CallSaveSegment segment) t0)
      by (eapply Forall_impl; [|exact Hq]; intros e He; left; exact He).
    unfold schedule.NewSegment_place in Hplace. rewrite Hprot in Hplace.
    cbn [negb] in Hplace.
    destruct (0 <? Z.of_nat (List.length res)).
    + run. inv Hplace. rewrite app_nil_r. split; [assumption|].
      split; [left; reflexivity|discriminate].
    + run. destruct (sch_SaveSegment schStorage segment st) as [[id|err] sts] eqn:Es;
        inv Hplace; (split; [|split]);
        try (apply Forall_app; split; [assumption|];
             constructor; [right; left; reflexivity|];
             constructor; [right; right; reflexivity|constructor]);
        try (right; eexists; reflexivity).
      * intros i [= <-]. reflexivity.
      * discriminate.
Qed.

(** X7. [NewSegment] deletes only on behalf of a protected request, and
    only segments that its overlap query returned, none of them flagged
    protected. *)
Theorem NewSegment_deletes_only_found segment st r st' t id :
  NewSegment segment st = (r, st', t) ->
  In (CallDeleteSegment id) t ->
  Protected segment = true
  /\ exists start stop res segm,
      intersected st segment start stop res
      /\ Forall (fun s => Protected s = false) res
      /\ In segm res /\ ID segm = Some id.
Proof.
  intros H Hin.
  destruct (NewSegment_cases _ _ _ _ _ _ _ H)
    as [(_ & Hq & _) | (start & stop & res & t0 & t1 & Hreach & Hq & -> & Hplace)].
  - rewrite Forall_forall in Hq. apply Hq in Hin. discriminate.
  - apply in_app_or in Hin as [Hin|Hin].
    + rewrite Forall_forall in Hq. apply Hq in Hin. discriminate.
    + destruct (NewSegment_place_trace _ _ _ _ _ _ _ Hplace) as [_ Hdel].
      destruct (Hdel id Hin) as (Hp & Hall & segm & Hs).
      split; [assumption|]. exists start, stop, res, segm. tauto.
Qed.

(** X8. A protected insertion that succeeds has cleared the overlap set
    without an error, saved the request in the store left by the
    clearing, and set the protection of the id that save returned; that
    id is the one returned and the store after the protection call is
    the final store. *)
Theorem NewSegment_protected_success_store segment st id st' t :
  Protected segment = true ->
  NewSegment segment st = (Returned (id, None), st', t) ->
  exists start stop res st1 t1 st2,
    intersected st segment start stop res
    /\ Forall (fun s => Protected s = false) res
    /\ NewSegment_range start res st = (Returned None, st1, t1)
    /\ sch_SaveSegment schStorage segment st1 = (Ok id, st2)
    /\ sch_ProtectSegment schStorage id st2 = (None, st').
Proof.
  intros Hprot H.
  destruct (NewSegment_cases _ _ _ _ _ _ _ H)
    as [(_ & _ & Hfail) | (start & stop & res & t0 & tp & Hreach & _ & _ & Hplace)].
  - elim (Hfail id eq_refl).
  - unfold schedule.NewSegment_place in Hplace. rewrite Hprot in Hplace.
    cbn [negb] in Hplace.
    destruct (firstProtected res) as [found|] eqn:Efound.
    + unfold End in Hplace. run.
      destruct (Start found); [|discriminate].
      destruct (StopCut found); [|discriminate].
      destruct (BeginCut found); discriminate.
    + assert (Hall : Forall (fun s => Protected s = false) res).
      { apply Forall_forall. intros s Hs. exact (find_none _ _ Efound s Hs). }
      unfold bind at 1 in Hplace.
      destruct (NewSegment_range start res st) as [[rr st1] t1] eqn:Hrange.
      destruct rr as [[err|]|]; run; try discriminate.
      destruct (sch_SaveSegment schStorage segment st1) as [[i|err] st2] eqn:Es;
        [|discriminate].
      destruct (sch_ProtectSegment schStorage i st2) as [[err|] st3] eqn:Ep;
        [discriminate|].
      inv Hplace. exists start, stop, res, st1, t1, st2. auto.
Qed.

(** X9. On the protected path a payload is published only by an
    insertion that succeeds, and it is the request itself; a successful
    insertion has saved, protected, signalled and published. *)
Theorem NewSegment_protected_payload_iff_success segment st r st' t :
  Protected segment = true ->
  NewSegment segment st = (r, st', t) ->
  (forall s, In (SendAllSegments s) t -> s = segment /\ exists id, r = Returned (id, None))
  /\ (forall id, r = Returned (id, None) ->
        In (SendAllSegments segment) t /\ In NotifyProtected t
        /\ In (CallSaveSegment segment) t /\ In (CallProtectSegment id) t).
Proof.
  intros Hprot H.
  destruct (NewSegment_cases _ _ _ _ _ _ _ H)
    as [(_ & Hq & Hfail) | (start & stop & res & t0 & t1 & _ & Hq & -> & Hplace)].
  - split.
    + intros s Hin. rewrite Forall_forall in Hq. apply Hq in Hin. discriminate.
    + intros id ->. elim (Hfail id eq_refl).
  - apply isQuery_not_insertion in Hq.
    destruct (NewSegment_place_shape _ _ _ _ _ _ _ _ Hplace)
      as (pre & post & -> & Hpre & Hpost).
    assert (Hno : forall s, ~ In (SendAllSegments s) (t0 ++ pre)).
    { intros s Hin. apply in_app_or in Hin as [Hin|Hin];
        [rewrite Forall_forall in Hq; apply Hq in Hin
        |rewrite Forall_forall in Hpre; apply Hpre in Hin]; discriminate. }
    split.
    + intros s Hin. rewrite app_assoc in Hin.
      apply in_app_or in Hin as [Hin|Hin]; [elim (Hno s Hin)|].
      destruct Hpost as [[-> _] | [[Hu _] | [[-> _] | [(i & -> & _) | (i & -> & Hr)]]]];
        try congruence; cbn in Hin;
        repeat (destruct Hin as [Hin|Hin]; try discriminate); try contradiction.
      injection Hin as <-. eauto.
    + intros id ->.
      destruct Hpost as [[_ Hf] | [[Hu _] | [[_ Hf] | [(i & _ & Hf) | (i & -> & Hr)]]]];
        try (elim (Hf id eq_refl)); try congruence.
      injection Hr as <-.
      repeat split; apply in_or_app; right; apply in_or_app; right; cbn; auto.
Qed.

(** ** NewSegment: faults while clearing *)

Lemma errors_Is_wrapped_sentinel op cause :
  errors_Is (fmt_Errorf op cause) service_ErrSegmentNotFound
  = errors_Is cause service_ErrSegmentNotFound.
Proof.
  cbn [errors_Is].
  destruct (error_eq_dec (fmt_Errorf op cause) service_ErrSegmentNotFound);
    [discriminate|reflexivity].
Qed.

(** What [DeleteSegment] returns, by the answers of the store. *)
Lemma DeleteSegment_outcome id st :
  (exists cause,
      sch_IsSegmentProtected schStorage id st = Err cause
      /\ DeleteSegment id st
         = (Returned (Some (if errors_Is cause storage_ErrSegmentNotFound
                            then service_ErrSegmentNotFound
                            else fmt_Errorf opDeleteSegment cause)),
            st, [CallIsSegmentProtected id]))
  \/ (exists isProt cause st1,
         sch_IsSegmentProtected schStorage id st = Ok isProt
         /\ sch_DeleteSegment schStorage id st = (Some cause, st1)
         /\ DeleteSegment id st
            = (Returned (Some (if errors_Is cause storage_ErrSegmentNotFound
                               then service_ErrSegmentNotFound
                               else fmt_Errorf opDeleteSegment cause)),
               st1, [CallIsSegmentProtected id; CallDeleteSegment id]))
  \/ (exists isProt st1,
         sch_IsSegmentProtected schStorage id st = Ok isProt
         /\ sch_DeleteSegment schStorage id st = (None, st1)
         /\ DeleteSegment id st
            = (Returned None, st1,
               CallIsSegmentProtected id :: CallDeleteSegment id
               :: (if isProt : bool then [NotifyProtected] else []))).
Proof.
  unfold schedule.DeleteSegment. run.
  destruct (sch_IsSegmentProtected schStorage id st) as [isProt|cause].
  - right. destruct (sch_DeleteSegment schStorage id st) as [[cause|] st1].
    + left. exists isProt, cause, st1. split; [reflexivity|]. split; [reflexivity|].
      destruct (errors_Is cause storage_ErrSegmentNotFound); reflexivity.
    + right. exists isProt, st1. split; [reflexivity|]. split; [reflexivity|].
      destruct isProt; reflexivity.
  - left. exists cause. split; [reflexivity|].
    destruct (errors_Is cause storage_ErrSegmentNotFound); reflexivity.
Qed.

Lemma errors_Is_sentinel_refl :
  errors_Is service_ErrSegmentNotFound service_ErrSegmentNotFound = true.
Proof. apply errors_Is_refl. Qed.

(** X10. A found segment that the store no longer has never stops the
    clearing loop.  Whether the loop passes the segment over or hands it
    to [DeleteSegment], when the protection fetch or the deletion of that
    segment answers [storage.ErrSegmentNotFound] the loop goes on with the
    remaining segments; for this segment it has made at most the fetch
    and the deletion call, and it has sent no signal. *)
Theorem clearing_tolerates_absent start segm tl st id :
  ID segm = Some id ->
  populated segm ->
  (forall cause,
      sch_IsSegmentProtected schStorage id st = Err cause ->
      errors_Is cause storage_ErrSegmentNotFound = true ->
      exists pre,
        (pre = [] \/ pre = [CallIsSegmentProtected id])
        /\ NewSegment_range start (segm :: tl) st
           = (let '(r, st2, t2) := NewSegment_range start tl st in
              (r, st2, pre ++ t2)))
  /\ (forall isProt cause st1,
        sch_IsSegmentProtected schStorage id st = Ok isProt ->
        sch_DeleteSegment schStorage id st = (Some cause, st1) ->
        errors_Is cause storage_ErrSegmentNotFound = true ->
        exists pre st0,
          ((pre = [] /\ st0 = st)
           \/ (pre = [CallIsSegmentProtected id; CallDeleteSegment id] /\ st0 = st1))
          /\ NewSegment_range start (segm :: tl) st
             = (let '(r, st2, t2) := NewSegment_range start tl st0 in
                (r, st2, pre ++ t2))).
Proof.
  intros Hid Hpop.
  destruct (NewSegment_range_head start segm st)
    as [Hskip | [[Hnil _] | (id' & Hid' & Hdel)]]; [|elim (Hnil Hpop)|].
  - split.
    + intros cause _ _. exists []. split; [left; reflexivity|].
      rewrite Hskip. destruct (NewSegment_range start tl st) as [[r st2] t2]. reflexivity.
    + intros isProt cause st1 _ _ _. exists [], st. split; [left; split; reflexivity|].
      rewrite Hskip. destruct (NewSegment_range start tl st) as [[r st2] t2]. reflexivity.
  - assert (id' = id) as -> by congruence. split.
    + intros cause Hp His. exists [CallIsSegmentProtected id].
      split; [right; reflexivity|]. rewrite Hdel.
      destruct (DeleteSegment_outcome id st)
        as [(c & Hp' & ->) | [(p & c & s1 & Hp' & _) | (p & s1 & Hp' & _)]];
        try congruence.
      assert (c = cause) as -> by congruence. rewrite His, errors_Is_sentinel_refl.
      reflexivity.
    + intros isProt cause st1 Hp Hd His.
      exists [CallIsSegmentProtected id; CallDeleteSegment id], st1.
      split; [right; split; reflexivity|]. rewrite Hdel.
      destruct (DeleteSegment_outcome id st)
        as [(c & Hp' & _) | [(p & c & s1 & _ & Hd' & ->) | (p & s1 & _ & Hd' & _)]];
        try congruence.
      assert (c = cause) as -> by congruence.
      assert (s1 = st1) as -> by congruence.
      rewrite His, errors_Is_sentinel_refl. reflexivity.
Qed.

(** X11. An error from the clearing loop is the fault of one protection
    fetch or of one deletion, for one of the found segments: a fault
    other than [storage.ErrSegmentNotFound], wrapped under both operation
    names.  The loop ends at once where it happens: the segments before
    that one were gone through without an error, and the failing call is
    the last thing the loop did, so that the segments after it are not
    visited. *)
Theorem clearing_aborts_on_fault start res :
  forall st err st' t,
    NewSegment_range start res st = (Returned (Some err), st', t) ->
    exists before segm after id cause st1 t1,
      res = before ++ segm :: after
      /\ ID segm = Some id
      /\ NewSegment_range start before st = (Returned None, st1, t1)
      /\ err = fmt_Errorf opNewSegment (fmt_Errorf opDeleteSegment cause)
      /\ errors_Is cause storage_ErrSegmentNotFound = false
      /\ ((sch_IsSegmentProtected schStorage id st1 = Err cause
           /\ st' = st1 /\ t = t1 ++ [CallIsSegmentProtected id])
          \/ (exists isProt,
                sch_IsSegmentProtected schStorage id st1 = Ok isProt
                /\ sch_DeleteSegment schStorage id st1 = (Some cause, st')
                /\ t = t1 ++ [CallIsSegmentProtected id; CallDeleteSegment id])).
Proof.
  induction res as [|segm tl IH]; intros st err st' t H.
  { cbn [schedule.NewSegment_range] in H. run. discriminate. }
  destruct (NewSegment_range_head start segm st)
    as [Hskip | [[_ Hpanic] | (id & Hid & Hdel)]].
  - rewrite Hskip in H.
    destruct (IH _ _ _ _ H)
      as (before & s & after & i & cause & st1 & t1 & -> & Hi & Hrun & Hrest).
    exists (segm :: before), s, after, i, cause, st1, t1.
    split; [reflexivity|]. split; [assumption|]. split; [|assumption].
    rewrite Hskip. assumption.
  - rewrite Hpanic in H. discriminate.
  - rewrite Hdel in H.
    destruct (DeleteSegment id st) as [[rd std] td] eqn:Ed.
    assert (Hgo : forall r2 st2 t2,
               NewSegment_range start tl std = (r2, st2, t2) ->
               (r2, st2, td ++ t2) = (Returned (Some err), st', t) ->
               (forall before st1 t1,
                   NewSegment_range start before std = (Returned None, st1, t1) ->
                   NewSegment_range start (segm :: before) st
                   = (Returned None, st1, td ++ t1)) ->
               exists before s after i cause st1 t1,
                 segm :: tl = before ++ s :: after
                 /\ ID s = Some i
                 /\ NewSegment_range start before st = (Returned None, st1, t1)
                 /\ err = fmt_Errorf opNewSegment (fmt_Errorf opDeleteSegment cause)
                 /\ errors_Is cause storage_ErrSegmentNotFound = false
                 /\ ((sch_IsSegmentProtected schStorage i st1 = Err cause
                      /\ st' = st1 /\ t = t1 ++ [CallIsSegmentProtected i])
                     \/ (exists isProt,
                           sch_IsSegmentProtected schStorage i st1 = Ok isProt
                           /\ sch_DeleteSegment schStorage i st1 = (Some cause, st')
                           /\ t = t1 ++ [CallIsSegmentProtected i; CallDeleteSegment i]))).
    { intros r2 st2 t2 Etl E Hcons. injection E as -> -> <-.
      destruct (IH _ _ _ _ Etl)
        as (before & s & after & i & cause & st1 & t1 & -> & Hi & Hrun & -> & Hc & Hlast).
      exists (segm :: before), s, after, i, cause, st1, (td ++ t1).
      split; [reflexivity|]. split; [assumption|].
      split; [apply Hcons; assumption|].
      split; [reflexivity|]. split; [assumption|].
      destruct Hlast as [(Hp & -> & ->) | (p & Hp & Hd & ->)].
      - left. rewrite app_assoc. auto.
      - right. exists p. rewrite app_assoc. auto. }
    destruct rd as [[e|]|]; [| |discriminate].
    + destruct (errors_Is e service_ErrSegmentNotFound) eqn:Htol.
      * destruct (NewSegment_range start tl std) as [[r2 st2] t2] eqn:Etl.
        eapply Hgo; [reflexivity|exact H|].
        intros before st1 t1 Hrun. rewrite Hdel, ?Ed. cbn beta iota.
        rewrite ?Htol, Hrun. reflexivity.
      * injection H as <- <- <-.
        exists [], segm, tl, id.
        destruct (DeleteSegment_outcome id st)
          as [(c & Hp & Ed') | [(p & c & s1 & Hp & Hd & Ed') | (p & s1 & Hp & Hd & Ed')]];
          rewrite Ed in Ed'; [| |discriminate].
        -- exists c, st, []. injection Ed' as He Hst Htd. subst e std td.
           destruct (errors_Is c storage_ErrSegmentNotFound) eqn:Hc;
             [rewrite errors_Is_sentinel_refl in Htol; discriminate|].
           split; [reflexivity|]. split; [assumption|]. split; [reflexivity|].
           split; [reflexivity|]. split; [reflexivity|].
           left. split; [assumption|]. split; reflexivity.
        -- exists c, st, []. injection Ed' as He Hst Htd. subst e std td.
           destruct (errors_Is c storage_ErrSegmentNotFound) eqn:Hc;
             [rewrite errors_Is_sentinel_refl in Htol; discriminate|].
           split; [reflexivity|]. split; [assumption|]. split; [reflexivity|].
           split; [reflexivity|]. split; [reflexivity|].
           right. exists p. split; [assumption|]. split; [assumption|reflexivity].
    + destruct (NewSegment_range start tl std) as [[r2 st2] t2] eqn:Etl.
      eapply Hgo; [reflexivity|exact H|].
      intros before st1 t1 Hrun. rewrite Hdel, ?Ed. cbn beta iota.
      rewrite Hrun. reflexivity.
Qed.

(** ** Segment *)

Abbreviation Segment_get := (schedule_rest.Segment schStorage rest).

(** X12. An error from [Segment] comes with the zero segment and the
    store as it was.  It is [service.ErrSegmentNotFound] only when the
    store's [Segment] call answered [storage.ErrSegmentNotFound];
    otherwise it wraps the fault of that call or of the protection
    fetch. *)
Theorem Segment_error_zero id st s err st' t :
  Segment_get id st = (Returned (s, Some err), st', t) ->
  s = zeroSegment /\ st' = st
  /\ ((err = service_ErrSegmentNotFound
       /\ exists cause, sch_Segment rest id st = Err cause
                        /\ errors_Is cause storage_ErrSegmentNotFound = true)
      \/ exists cause, err = fmt_Errorf opSegment cause
                       /\ (sch_Segment rest id st = Err cause
                           \/ sch_IsSegmentProtected schStorage id st = Err cause)).
Proof.
  unfold schedule_rest.Segment. intros H.
  destruct (sch_Segment rest id st) as [stored|cause] eqn:Es.
  - destruct (MediaID stored), (Start stored), (BeginCut stored), (StopCut stored);
      try discriminate.
    destruct (sch_IsSegmentProtected schStorage id st) as [isProt|cause] eqn:Ep;
      inv H. eauto 10.
  - destruct (errors_Is cause storage_ErrSegmentNotFound) eqn:E; inv H; eauto 10.
Qed.

(** X13. [Segment] succeeds exactly when the store has the segment with
    its four pointers set and the protection fetch succeeds; it returns
    the stored segment with the flag fetched and nothing else changed,
    after these two calls. *)
Theorem Segment_success id st s st' t :
  Segment_get id st = (Returned (s, None), st', t)
  <-> exists stored isProt,
      sch_Segment rest id st = Ok stored
      /\ MediaID stored <> None /\ Start stored <> None
      /\ BeginCut stored <> None /\ StopCut stored <> None
      /\ sch_IsSegmentProtected schStorage id st = Ok isProt
      /\ s = setProtected stored isProt
      /\ st' = st
      /\ t = [CallSegment id; Engine (CallIsSegmentProtected id)].
Proof.
  unfold schedule_rest.Segment. split.
  - intros H. destruct (sch_Segment rest id st) as [stored|cause] eqn:Es;
      [|discriminate].
    destruct (MediaID stored) eqn:E1, (Start stored) eqn:E2,
             (BeginCut stored) eqn:E3, (StopCut stored) eqn:E4; try discriminate.
    destruct (sch_IsSegmentProtected schStorage id st) as [isProt|cause] eqn:Ep;
      inv H.
    exists stored, isProt. rewrite E1, E2, E3, E4. repeat split; congruence.
  - intros (stored & isProt & -> & H1 & H2 & H3 & H4 & -> & -> & -> & ->).
    destruct (MediaID stored), (Start stored), (BeginCut stored), (StopCut stored);
      congruence.
Qed.

(** X14. When the store has the segment but its protection fetch
    answers [storage.ErrSegmentNotFound], [DeleteSegment] returns
    [service.ErrSegmentNotFound], whereas [Segment] returns the wrapped
    storage error, in which [errors.Is] finds the storage sentinel and
    not the service one. *)
Theorem Segment_absent_flag_not_mapped id st stored cause :
  sch_Segment rest id st = Ok stored ->
  MediaID stored <> None -> Start stored <> None ->
  BeginCut stored <> None -> StopCut stored <> None ->
  sch_IsSegmentProtected schStorage id st = Err cause ->
  errors_Is cause storage_ErrSegmentNotFound = true ->
  errors_Is cause service_ErrSegmentNotFound = false ->
  DeleteSegment id st
  = (Returned (Some service_ErrSegmentNotFound), st, [CallIsSegmentProtected id])
  /\ exists err,
      Segment_get id st
      = (Returned (zeroSegment, Some err), st,
         [CallSegment id; Engine (CallIsSegmentProtected id)])
      /\ errors_Is err service_ErrSegmentNotFound = false
      /\ errors_Is err storage_ErrSegmentNotFound = true.
Proof.
  intros Hs H1 H2 H3 H4 Hp Hst Hsv. split.
  - unfold schedule.DeleteSegment. run. rewrite Hp, Hst. reflexivity.
  - exists (fmt_Errorf opSegment cause). unfold schedule_rest.Segment. rewrite Hs, Hp.
    destruct (MediaID stored), (Start stored), (BeginCut stored), (StopCut stored);
      try congruence.
    split; [reflexivity|]. split.
    + rewrite errors_Is_wrapped_sentinel. exact Hsv.
    + apply errors_Is_wrap. exact Hst.
Qed.

(** X17. The sentinel errors of [NewSegment] are sound: each one is
    returned only for its cause -- a media the store does not have, a cut
    that is negative or beyond the duration, a begin cut after the stop
    cut, an overlap (any segment for an unprotected request, a protected
    one for a protected request). *)
Theorem NewSegment_error_sound segment st v err st' t :
  NewSegment segment st = (Returned (v, Some err), st', t) ->
  (err = service_ErrMediaNotFound ->
   exists mediaID cause,
     MediaID segment = Some mediaID
     /\ med_Media mediaStorage mediaID st = Err cause
     /\ errors_Is cause storage_ErrMediaNotFound = true)
  /\ (err = service_ErrCutOutOfBounds ->
      exists mediaID media duration beginCut stopCut,
        MediaID segment = Some mediaID
        /\ med_Media mediaStorage mediaID st = Ok media
        /\ Duration media = Some duration
        /\ BeginCut segment = Some beginCut /\ StopCut segment = Some stopCut
        /\ (beginCut < 0 \/ stopCut < 0 \/ beginCut > duration \/ stopCut > duration))
  /\ (err = service_ErrBeginAfterStop ->
      exists mediaID media duration beginCut stopCut,
        MediaID segment = Some mediaID
        /\ med_Media mediaStorage mediaID st = Ok media
        /\ Duration media = Some duration
        /\ BeginCut segment = Some beginCut /\ StopCut segment = Some stopCut
        /\ 0 <= stopCut < beginCut /\ beginCut <= duration)
  /\ (err = service_ErrSegmentIntersection ->
      exists start stop res,
        intersected st segment start stop res
        /\ ((Protected segment = false /\ res <> [])
            \/ (Protected segment = true
                /\ exists found, In found res /\ Protected found = true))).
Proof.
  intros H. unfold schedule.NewSegment, cutOutOfBounds in H. run.
  destruct (MediaID segment) as [mediaID|] eqn:Hid; [|discriminate].
  destruct (med_Media mediaStorage mediaID st) as [media|e] eqn:Hmedia.
  { destruct (Duration media) as [duration|] eqn:Hdur; [|discriminate].
    destruct (StopCut segment) as [stopCut|] eqn:Hstop; [|discriminate].
    destruct (duration <? stopCut) eqn:C1.
    { destruct (BeginCut segment) as [beginCut|] eqn:Hbegin; inv H.
      apply Z.ltb_lt in C1.
      repeat split; try discriminate. intros _.
      exists mediaID, media, duration, beginCut, stopCut. repeat split; auto. lia. }
    destruct (BeginCut segment) as [beginCut|] eqn:Hbegin; [|discriminate].
    destruct ((duration <? beginCut) || (beginCut <? 0) || (stopCut <? 0))%bool eqn:C2.
    { inv H. repeat split; try discriminate. intros _.
      exists mediaID, media, duration, beginCut, stopCut. repeat split; auto.
      apply orb_true_iff in C2 as [C2|C2]; [apply orb_true_iff in C2 as [C2|C2]|];
        apply Z.ltb_lt in C2; lia. }
    apply orb_false_iff in C2 as [C2 C4]. apply orb_false_iff in C2 as [C2 C3].
    apply Z.ltb_ge in C1, C2, C3, C4.
    destruct (beginCut >? stopCut) eqn:C5.
    { inv H. repeat split; try discriminate. intros _.
      rewrite Z.gtb_ltb in C5. apply Z.ltb_lt in C5.
      exists mediaID, media, duration, beginCut, stopCut. repeat split; auto; lia. }
    rewrite Z.gtb_ltb in C5. apply Z.ltb_ge in C5.
    destruct (Start segment) as [start|] eqn:Hstart; [|discriminate].
    unfold End in H. rewrite Hstart, Hstop, Hbegin in H.
    destruct (ScheduleCut start (time.Add start (stopCut - beginCut)) st)
      as [[rc stc] tc] eqn:Hquery.
    destruct (ScheduleCut_readonly _ _ _ _ _ _ _ Hquery) as [-> _].
    destruct rc as [[res [e|]]|]; [inv H; repeat split; discriminate| |discriminate].
    destruct (NewSegment_place segment start res st) as [[rp stp] tp] eqn:Hplace.
    inv H.
    assert (Hreach : intersected st segment start
                                 (time.Add start (stopCut - beginCut)) res).
    { exists mediaID, media, duration, beginCut, stopCut, st, tc.
      repeat split; auto; lia. }
    destruct (NewSegment_place_trace _ _ _ _ _ _ _ Hplace) as [Herr _].
    destruct (Herr _ _ eq_refl) as [_ [->|(cause & ->)]];
      [|repeat split; discriminate].
    repeat split; try discriminate. intros _.
    exists start, (time.Add start (stopCut - beginCut)), res.
    split; [assumption|].
    unfold schedule.NewSegment_place in Hplace.
    destruct (Protected segment) eqn:Hprot; cbn [negb] in Hplace.
    - right. split; [reflexivity|].
      destruct (firstProtected res) as [found|] eqn:Efound.
      + apply find_some in Efound. exists found. exact Efound.
      + exfalso. unfold bind at 1 in Hplace.
        destruct (NewSegment_range start res st) as [[rr str] tr] eqn:Hrange.
        destruct (NewSegment_range_trace _ _ _ _ _ _ Hrange) as [_ Hw].
        destruct rr as [[e|]|]; run; try discriminate.
        * inv Hplace. destruct (Hw _ eq_refl) as (c & Hc). discriminate.
        * destruct (sch_SaveSegment schStorage segment str) as [[i|e] sts];
            [|discriminate].
          destruct (sch_ProtectSegment schStorage i sts) as [[e|] stp']; discriminate.
    - left. split; [reflexivity|].
      destruct res; [|discriminate]. exfalso.
      change (0 <? Z.of_nat (List.length (@nil models.Segment))) with false in Hplace.
      cbv iota in Hplace. run.
      destruct (sch_SaveSegment schStorage segment st) as [[i|e] sts]; discriminate. }
  destruct (errors_Is e storage_ErrMediaNotFound) eqn:E; inv H;
    repeat split; try discriminate.
  intros _. exists mediaID, e. auto.
Qed.

(** X18. With the four pointers of the request set, the duration of every
    media set and every segment that the store returns populated,
    [NewSegment] returns: it does not panic, whatever the store answers. *)
Theorem NewSegment_does_not_panic st segment :
  MediaID segment <> None -> Start segment <> None ->
  BeginCut segment <> None -> StopCut segment <> None ->
  (forall id media, med_Media mediaStorage id st = Ok media -> Duration media <> None) ->
  (forall start stop found,
      sch_ScheduleCut schStorage start stop st = Ok found -> Forall populated found) ->
  exists v st' t, NewSegment segment st = (Returned v, st', t).
Proof.
  intros Hid Hstart Hbegin Hstop Hmedia Hstore.
  apply NewSegment_returns; assumption.
Qed.

(** ** ClearSchedule *)

(** [ClearSchedule] makes the one store call and sends nothing; a fault
    comes back wrapped, so that [errors.Is] still finds it. *)
Lemma ClearSchedule_calls from st :
  exists r st',
    schedule_rest.ClearSchedule rest from st = (Returned r, st', [CallClearSchedule from])
    /\ (r = None
        \/ exists cause, r = Some (fmt_Errorf opClearSchedule cause)
                         /\ errors_Is (fmt_Errorf opClearSchedule cause) cause = true).
Proof.
  unfold schedule_rest.ClearSchedule.
  destruct (sch_ClearSchedule rest from st) as [[cause|] st'].
  - do 2 eexists. split; [reflexivity|]. right. exists cause.
    split; [reflexivity|]. apply errors_Is_wrap, errors_Is_refl.
  - do 2 eexists. split; [reflexivity|]. left. reflexivity.
Qed.

End FurtherProperties.

(** * Further properties of the serialized start *)

Section FurtherStartProperties.

Import models shape schedule_rest.

(** *** The alphabet *)

Lemma inAlphabet_digit c : isDigit c = true -> inAlphabet c = true.
Proof. intros H. unfold inAlphabet. rewrite H. reflexivity. Qed.

Lemma appendInt_alphabet x width :
  Forall (fun c => inAlphabet c = true) (time.appendInt x width).
Proof.
  unfold time.appendInt. apply Forall_app. split.
  - destruct (x <? 0); repeat constructor.
  - eapply Forall_impl; [|apply lowDigits_digits]. exact inAlphabet_digit.
Qed.

Lemma trimRight_Forall (P : ascii -> Prop) c l :
  Forall P l -> Forall P (time.trimRight c l).
Proof.
  intros H. destruct (trimRight_spec c l) as (k & Hl & _).
  rewrite Hl in H. apply Forall_app in H as [H _]. exact H.
Qed.

Lemma appendNano9_alphabet n :
  Forall (fun c => inAlphabet c = true) (time.appendNano9 n).
Proof.
  unfold time.appendNano9. destruct (n =? 0); [constructor|].
  do 2 apply trimRight_Forall. constructor; [reflexivity|].
  eapply Forall_impl; [|apply lowDigits_digits]. exact inAlphabet_digit.
Qed.

Lemma appendNumColonTZ_alphabet offset :
  Forall (fun c => inAlphabet c = true) (time.appendNumColonTZ offset).
Proof.
  unfold time.appendNumColonTZ. cbv zeta.
  apply Forall_app. split; [destruct (Z.quot offset 60 <? 0); repeat constructor|].
  apply Forall_app. split; [apply appendInt_alphabet|].
  apply Forall_app. split; [repeat constructor|apply appendInt_alphabet].
Qed.

(** X15. For every start, the member written by [MarshalJSON] consists
    of digits and the characters [-], [:], [T], [.] and [+] only: no
    letter [Z] for UTC, no space, nothing that JSON would escape. *)
Theorem MarshalJSON_start_alphabet s start :
  Start s = Some start ->
  exists v,
    MarshalJSON s = Returned (json_Marshal (marshalFields s v), None)
    /\ startMember s = Returned v
    /\ Forall (fun c => inAlphabet c = true) (list_ascii_of_string v).
Proof.
  intros Hstart. exists (time.Format start TimeFormat).
  split; [unfold MarshalJSON; rewrite Hstart; reflexivity|].
  split; [unfold startMember; rewrite Hstart; reflexivity|].
  rewrite Format_TimeFormat, list_ascii_of_string_of_list_ascii.
  unfold time.secondsText.
  repeat first
    [ apply appendInt_alphabet
    | apply appendNano9_alphabet
    | apply appendNumColonTZ_alphabet
    | apply Forall_cons; [reflexivity|]
    | apply Forall_app; split ].
Qed.

(** *** The nanosecond *)

Lemma digitChar_inj a b :
  0 <= a < 10 -> 0 <= b < 10 -> time.digitChar a = time.digitChar b -> a = b.
Proof.
  intros Ha Hb H. unfold time.digitChar in H.
  apply (f_equal nat_of_ascii) in H.
  rewrite !nat_ascii_embedding in H by lia. lia.
Qed.

Lemma lowDigits_inj k :
  forall n m, time.lowDigits k n = time.lowDigits k m ->
              n mod 10 ^ Z.of_nat k = m mod 10 ^ Z.of_nat k.
Proof.
  induction k as [|k IH]; intros n m H.
  - rewrite !Z.mod_1_r. reflexivity.
  - cbn [time.lowDigits] in H. apply app_inj_tail in H as [Hhi Hlo].
    apply digitChar_inj in Hlo; try (apply Z.mod_pos_bound; lia).
    apply IH in Hhi.
    rewrite Nat2Z.inj_succ, Z.pow_succ_r by lia.
    rewrite !Z.rem_mul_r by lia. lia.
Qed.

Lemma trimRight_lowDigits n :
  exists k, (k <= 9)%nat
            /\ time.lowDigits 9 n
               = time.trimRight "0" (time.lowDigits 9 n) ++ repeat "0"%char k
            /\ k = (9 - List.length (time.trimRight "0" (time.lowDigits 9 n)))%nat.
Proof.
  destruct (trimRight_spec "0" (time.lowDigits 9 n)) as (k & Hl & _).
  pose proof (lowDigits_length 9 n) as Hlen. rewrite Hl in Hlen.
  rewrite length_app, repeat_length in Hlen.
  exists k. split; [lia|]. split; [exact Hl|lia].
Qed.

Lemma appendNano9_trim n :
  0 < n < 1000000000 ->
  time.appendNano9 n = "."%char :: time.trimRight "0" (time.lowDigits 9 n).
Proof.
  intros Hn. unfold time.appendNano9.
  replace (n =? 0) with false by (symmetry; apply Z.eqb_neq; lia).
  destruct (trimRight_spec "0" (time.lowDigits 9 n)) as (k & Hl & Htr).
  pose proof (lowDigits_digits 9 n) as Hd.
  destruct Htr as [Htr|(l' & x & Htr & Hx)].
  - exfalso. rewrite Htr in Hl. cbn [app] in Hl.
    assert (Hz : n mod 10 ^ Z.of_nat 9 = 0).
    { apply lowDigits_zeros. rewrite Hl. apply Forall_forall.
      intros c Hc. apply repeat_spec in Hc. exact Hc. }
    change (10 ^ Z.of_nat 9) with 1000000000 in Hz.
    rewrite Z.mod_small in Hz by lia. lia.
  - assert (Hin : time.trimRight "0" ("."%char :: time.lowDigits 9 n)
                  = ("."%char :: l') ++ [x])
      by (cbn [time.trimRight]; rewrite Htr; destruct l'; reflexivity).
    assert (Hdot : x <> "."%char).
    { rewrite Hl, Htr in Hd. apply Forall_app in Hd as [Hd _].
      apply Forall_app in Hd as [_ Hx']. inversion Hx' as [|? ? Hdx _]; subst.
      intros ->. vm_compute in Hdx. discriminate. }
    rewrite Hin, trimRight_app_last, Htr by assumption. reflexivity.
Qed.

Lemma appendNano9_inj n m :
  0 <= n < 1000000000 -> 0 <= m < 1000000000 ->
  time.appendNano9 n = time.appendNano9 m -> n = m.
Proof.
  intros Hn Hm H.
  destruct (Z.eq_dec n 0) as [->|Hn0]; destruct (Z.eq_dec m 0) as [->|Hm0];
    try reflexivity.
  - rewrite (appendNano9_trim m) in H by lia. discriminate.
  - rewrite (appendNano9_trim n) in H by lia. discriminate.
  - rewrite (appendNano9_trim n), (appendNano9_trim m) in H by lia.
    apply (f_equal (@List.tl ascii)) in H. cbn [List.tl] in H.
    destruct (trimRight_lowDigits n) as (k & _ & Hl & Hk).
    destruct (trimRight_lowDigits m) as (k' & _ & Hl' & Hk').
    rewrite H in Hl, Hk.
    assert (E : time.lowDigits 9 n = time.lowDigits 9 m) by congruence.
    apply lowDigits_inj in E.
    change (10 ^ Z.of_nat 9) with 1000000000 in E.
    rewrite !Z.mod_small in E by lia. exact E.
Qed.

Lemma matches_fixed_length p :
  forall s, Forall (fun x => x <> Digits) p -> matches p s = true ->
            List.length s = List.length p.
Proof.
  induction p as [|x p IH]; intros s Hp H.
  - destruct s; [reflexivity|discriminate].
  - inversion Hp as [|? ? Hx Hp']; subst.
    destruct s as [|c s]; [destruct x; discriminate|].
    cbn [List.length]. f_equal. apply IH; [assumption|].
    destruct x; cbn [matches] in H; try congruence;
      apply andb_true_iff in H as [_ H]; exact H.
Qed.

Lemma app_inj_length {A} (a a' b b' : list A) :
  List.length a = List.length a' -> a ++ b = a' ++ b' -> a = a' /\ b = b'.
Proof.
  revert a'. induction a as [|x a IH]; intros [|y a'] Hlen H; try discriminate.
  - auto.
  - cbn in H. injection H as -> H. injection Hlen as Hlen.
    destruct (IH _ Hlen H) as [-> ->]. auto.
Qed.

Lemma startMember_Format s start :
  Start s = Some start -> startMember s = Returned (time.Format start TimeFormat).
Proof. intros H. unfold startMember. rewrite H. reflexivity. Qed.

Lemma appendInt_length k x :
  0 <= x < 10 ^ Z.of_nat (S k) -> List.length (time.appendInt x (S k)) = S k.
Proof. intros H. rewrite appendInt_lowDigits by assumption. apply lowDigits_length. Qed.

Lemma appendInt_inj k x y :
  0 <= x < 10 ^ Z.of_nat (S k) -> 0 <= y < 10 ^ Z.of_nat (S k) ->
  time.appendInt x (S k) = time.appendInt y (S k) -> x = y.
Proof.
  intros Hx Hy H. rewrite !appendInt_lowDigits in H by assumption.
  apply lowDigits_inj in H. rewrite !Z.mod_small in H by assumption. exact H.
Qed.

Lemma secondsText_inj t1 t2 :
  0 <= time.Year t1 <= 9999 -> 0 <= time.Year t2 <= 9999 ->
  time.secondsText t1 = time.secondsText t2 ->
  time.Year t1 = time.Year t2 /\ time.Month t1 = time.Month t2
  /\ time.Day t1 = time.Day t2 /\ time.Hour t1 = time.Hour t2
  /\ time.Minute t1 = time.Minute t2 /\ time.Sec t1 = time.Sec t2.
Proof.
  intros Hy1 Hy2 H. unfold time.secondsText in H.
  destruct (civil_bounds (time.wallSeconds t1 / 86400)) as [Hm1 Hd1].
  destruct (civil_bounds (time.wallSeconds t2 / 86400)) as [Hm2 Hd2].
  fold (time.Month t1) in Hm1. fold (time.Day t1) in Hd1.
  fold (time.Month t2) in Hm2. fold (time.Day t2) in Hd2.
  destruct (clock_bounds t1) as (Hh1 & Hmi1 & Hs1 & _).
  destruct (clock_bounds t2) as (Hh2 & Hmi2 & Hs2 & _).
  assert (B4 : forall x, 0 <= x <= 9999 -> 0 <= x < 10 ^ Z.of_nat 4)
    by (intros x Hx; change (10 ^ Z.of_nat 4) with 10000; lia).
  assert (B2 : forall x, 0 <= x < 100 -> 0 <= x < 10 ^ Z.of_nat 2)
    by (intros x Hx; change (10 ^ Z.of_nat 2) with 100; lia).
  apply app_inj_length in H as [HY H];
    [|rewrite !(appendInt_length 3) by (apply B4; assumption); reflexivity].
  injection H as H.
  apply app_inj_length in H as [HM H];
    [|rewrite !(appendInt_length 1) by (apply B2; lia); reflexivity].
  injection H as H.
  apply app_inj_length in H as [HD H];
    [|rewrite !(appendInt_length 1) by (apply B2; lia); reflexivity].
  injection H as H.
  apply app_inj_length in H as [Hh H];
    [|rewrite !(appendInt_length 1) by (apply B2; lia); reflexivity].
  injection H as H.
  apply app_inj_length in H as [Hmi H];
    [|rewrite !(appendInt_length 1) by (apply B2; lia); reflexivity].
  injection H as H.
  apply (appendInt_inj 3) in HY; try (apply B4; assumption).
  apply (appendInt_inj 1) in HM; try (apply B2; lia).
  apply (appendInt_inj 1) in HD; try (apply B2; lia).
  apply (appendInt_inj 1) in Hh; try (apply B2; lia).
  apply (appendInt_inj 1) in Hmi; try (apply B2; lia).
  apply (appendInt_inj 1) in H; try (apply B2; lia).
  auto 10.
Qed.

Lemma appendNumColonTZ_inj o1 o2 :
  -360000 < o1 < 360000 -> -360000 < o2 < 360000 ->
  time.appendNumColonTZ o1 = time.appendNumColonTZ o2 ->
  Z.quot o1 60 = Z.quot o2 60.
Proof.
  intros H1 H2 H. unfold time.appendNumColonTZ in H. cbv zeta in H.
  set (z1 := Z.quot o1 60) in *. set (z2 := Z.quot o2 60) in *.
  assert (Hz1 : -6000 < z1 < 6000)
    by (subst z1; Z.to_euclidean_division_equations; lia).
  assert (Hz2 : -6000 < z2 < 6000)
    by (subst z2; Z.to_euclidean_division_equations; lia).
  clearbody z1 z2.
  assert (B2 : forall x, 0 <= x < 100 -> 0 <= x < 10 ^ Z.of_nat 2)
    by (intros x Hx; change (10 ^ Z.of_nat 2) with 100; lia).
  assert (Hq : forall z, -6000 < z < 6000 ->
                         0 <= Z.quot (Z.abs z) 60 < 100 /\ 0 <= Z.rem (Z.abs z) 60 < 100)
    by (intros z Hz; Z.to_euclidean_division_equations; lia).
  destruct (Hq z1 Hz1) as [Ha1 Hb1]. destruct (Hq z2 Hz2) as [Ha2 Hb2].
  assert (Hsign : (z1 <? 0) = (z2 <? 0)).
  { destruct (z1 <? 0), (z2 <? 0); cbn [app] in H; try reflexivity;
      injection H as H _; discriminate. }
  assert (Htail : time.appendInt (Z.quot (Z.abs z1) 60) 2 ++ [":"%char]
                    ++ time.appendInt (Z.rem (Z.abs z1) 60) 2
                  = time.appendInt (Z.quot (Z.abs z2) 60) 2 ++ [":"%char]
                    ++ time.appendInt (Z.rem (Z.abs z2) 60) 2).
  { destruct (z1 <? 0), (z2 <? 0); cbn [app] in H; try discriminate;
      injection H as H; exact H. }
  apply app_inj_length in Htail as [Hh Hm];
    [|rewrite !(appendInt_length 1) by (apply B2; assumption); reflexivity].
  cbn [app] in Hm. injection Hm as Hm.
  apply (appendInt_inj 1) in Hh; try (apply B2; assumption).
  apply (appendInt_inj 1) in Hm; try (apply B2; assumption).
  assert (Habs : Z.abs z1 = Z.abs z2)
    by (Z.to_euclidean_division_equations; lia).
  destruct (z1 <? 0) eqn:E1; symmetry in Hsign;
    [apply Z.ltb_lt in E1, Hsign | apply Z.ltb_ge in E1, Hsign]; lia.
Qed.

(** X16. The start written by [MarshalJSON] keeps the wall clock: two
    segments (years of four digits, zone offsets under a hundred hours)
    with the same start member have starts with the same year, month,
    day, hour, minute, second and nanosecond, and the same zone offset
    in whole minutes. *)
Theorem MarshalJSON_start_keeps_wall_clock s1 s2 t1 t2 :
  Start s1 = Some t1 -> Start s2 = Some t2 ->
  0 <= time.Year t1 <= 9999 -> 0 <= time.Year t2 <= 9999 ->
  -360000 < time.zoneOffset t1 < 360000 ->
  -360000 < time.zoneOffset t2 < 360000 ->
  startMember s1 = startMember s2 ->
  time.Year t1 = time.Year t2 /\ time.Month t1 = time.Month t2
  /\ time.Day t1 = time.Day t2 /\ time.Hour t1 = time.Hour t2
  /\ time.Minute t1 = time.Minute t2 /\ time.Sec t1 = time.Sec t2
  /\ time.Nanosecond t1 = time.Nanosecond t2
  /\ Z.quot (time.zoneOffset t1) 60 = Z.quot (time.zoneOffset t2) 60.
Proof.
  intros H1 H2 Hy1 Hy2 Ho1 Ho2 H.
  rewrite (startMember_Format _ _ H1), (startMember_Format _ _ H2) in H.
  rewrite !Format_TimeFormat in H.
  apply (f_equal (fun o => match o with
                           | Returned v => list_ascii_of_string v
                           | Panicked => []
                           end)) in H.
  cbv beta iota in H. rewrite !list_ascii_of_string_of_list_ascii in H.
  assert (Hfixed : forall p, In p [seconds; zone] -> Forall (fun x => x <> Digits) p).
  { intros p [<-|[<-|[]]]; repeat constructor; discriminate. }
  assert (Hs : forall t, 0 <= time.Year t <= 9999 ->
                         List.length (time.secondsText t) = 19%nat).
  { intros t Hy. pose proof (matches_secondsText t [] [] Hy eq_refl) as Hm.
    rewrite !app_nil_r in Hm.
    apply matches_fixed_length in Hm; [exact Hm|]. apply Hfixed. left. reflexivity. }
  assert (Hz : forall o, -360000 < o < 360000 ->
                         List.length (time.appendNumColonTZ o) = 6%nat).
  { intros o Ho. pose proof (matches_zone o [] [] Ho eq_refl) as Hm.
    rewrite !app_nil_r in Hm.
    apply matches_fixed_length in Hm; [exact Hm|]. apply Hfixed. right. left. reflexivity. }
  apply app_inj_length in H as [Hsec H]; [|rewrite !Hs by assumption; reflexivity].
  assert (Hlen : List.length (time.appendNano9 (time.Nanosecond t1))
                 = List.length (time.appendNano9 (time.Nanosecond t2))).
  { apply (f_equal (@List.length ascii)) in H. rewrite !length_app, !Hz in H by assumption.
    lia. }
  apply app_inj_length in H as [Hnano Htz]; [|exact Hlen].
  destruct (clock_bounds t1) as (_ & _ & _ & Hn1).
  destruct (clock_bounds t2) as (_ & _ & _ & Hn2).
  apply secondsText_inj in Hsec as (EY & EM & ED & Eh & Em & Es); try assumption.
  apply appendNano9_inj in Hnano; try assumption.
  apply appendNumColonTZ_inj in Htz; try assumption.
  auto 10.
Qed.

End FurtherStartProperties.

(** * The further properties on concrete schedules *)

Section FurtherConcrete.

Import models shape schedule schedule_rest memstore memstore_rest.

Lemma admitted_request start len prot st :
  medias st = [media1] -> 0 <= len <= 300 ->
  schedule_rest.admitted mediaStorage st (request start len prot)
                         (at_ start) (time.Add (at_ start) (sec len - 0)).
Proof.
  intros Hm Hlen. exists 1, media1, (sec 300), 0, (sec len).
  repeat split; try reflexivity; unfold sec, time.Second; try lia.
  unfold mediaStorage, med_Media, memstore.Media. rewrite Hm. reflexivity.
Qed.

Lemma populated_A : populated segmentA.
Proof. repeat split; discriminate. Qed.

Lemma ScheduleCut_success_flags_witness :
  memstore.ScheduleCut_ (at_ 0) (at_ 100) scheduleAC
  = (Returned ([segmentA; setProtected segmentC true], None), scheduleAC,
     [CallScheduleCut (at_ 0) (at_ 100); CallIsSegmentProtected 1;
      CallIsSegmentProtected 2]).
Proof.
  apply (proj2 (ScheduleCut_success_flags schStorage (at_ 0) (at_ 100) scheduleAC
                  [segmentA; setProtected segmentC true] scheduleAC _)).
  exists [segmentA; segmentC]. split; [reflexivity|]. split; [|split; reflexivity].
  constructor; [exists 1, false; repeat split; reflexivity|].
  constructor; [exists 2, true; repeat split; reflexivity|constructor].
Defined.

Lemma ScheduleCut_first_failure_witness :
  memstore.ScheduleCut_ (at_ 0) (at_ 100) scheduleACunreadable
  = (Returned ([], Some (fmt_Errorf opScheduleCut connectionLost)),
     scheduleACunreadable,
     [CallScheduleCut (at_ 0) (at_ 100); CallIsSegmentProtected 1]).
Proof.
  apply (ScheduleCut_first_failure schStorage (at_ 0) (at_ 100) scheduleACunreadable
           [] segmentA [segmentC] 1 connectionLost).
  - reflexivity.
  - constructor.
  - reflexivity.
  - reflexivity.
Defined.

Lemma NewSegment_media_lookup_failure_witness :
  exists err,
    memstore.NewSegment (mkSegment None (Some 1) None None None false) noMedia
    = (Returned (0, Some err), noMedia, [CallMedia 1])
    /\ err = service_ErrMediaNotFound.
Proof.
  destruct (NewSegment_media_lookup_failure
              schStorage mediaStorage (mkSegment None (Some 1) None None None false)
              noMedia 1 storage_ErrMediaNotFound eq_refl eq_refl)
    as (err & Hrun & Hnot & _).
  exists err. split; [exact Hrun|]. apply Hnot. reflexivity.
Defined.

Lemma NewSegment_overlap_query_failure_witness :
  exists mediaID,
    memstore.NewSegment (request 30 60 false) unreachableStore
    = (Returned (0, Some (fmt_Errorf opNewSegment
                            (fmt_Errorf opScheduleCut connectionLost))),
       unreachableStore, CallMedia mediaID :: [CallScheduleCut (at_ 30) (at_ 90)])
    /\ Forall (fun e => isQuery e = true) [CallScheduleCut (at_ 30) (at_ 90)]
    /\ exists cause, fmt_Errorf opScheduleCut connectionLost
                     = fmt_Errorf opScheduleCut cause.
Proof.
  apply (NewSegment_overlap_query_failure
           schStorage mediaStorage unreachableStore (request 30 60 false)
           (at_ 30) (at_ 90) [] _ unreachableStore _).
  - apply (admitted_request 30 60 false unreachableStore); [reflexivity|lia].
  - reflexivity.
Defined.

Lemma scenario_B_run :
  memstore.NewSegment (request 30 60 false) scheduleA
  = (Returned (0, Some service_ErrSegmentIntersection), scheduleA,
     [CallMedia 1; CallScheduleCut (at_ 30) (at_ 90); CallIsSegmentProtected 1]).
Proof. vm_compute. reflexivity. Qed.

Lemma scenario_C_run :
  memstore.NewSegment (request 30 60 true) scheduleA
  = (Returned (2, None), store [stored 2 30 60] [2] 3,
     [ CallMedia 1; CallScheduleCut (at_ 30) (at_ 90); CallIsSegmentProtected 1;
       CallIsSegmentProtected 1; CallDeleteSegment 1;
       CallSaveSegment (request 30 60 true); CallProtectSegment 2;
       NotifyProtected; SendAllSegments (request 30 60 true) ]).
Proof. vm_compute. reflexivity. Qed.

Lemma insert_free_run :
  memstore.NewSegment (request 0 60 false) emptyStore
  = (Returned (1, None), store [stored 1 0 60] [] 2,
     [ CallMedia 1; CallScheduleCut (at_ 0) (at_ 60);
       SendAllSegments (request 0 60 false); CallSaveSegment (request 0 60 false) ]).
Proof. vm_compute. reflexivity. Qed.

Lemma NewSegment_error_kinds_witness :
  0 = 0
  /\ (service_ErrSegmentIntersection = service_ErrMediaNotFound
      \/ service_ErrSegmentIntersection = service_ErrCutOutOfBounds
      \/ service_ErrSegmentIntersection = service_ErrBeginAfterStop
      \/ service_ErrSegmentIntersection = service_ErrSegmentIntersection
      \/ exists cause, service_ErrSegmentIntersection = fmt_Errorf opNewSegment cause).
Proof.
  exact (NewSegment_error_kinds schStorage mediaStorage _ _ _ _ _ _ scenario_B_run).
Defined.

Lemma NewSegment_unprotected_effect_witness :
  memstore.SaveSegment (request 0 60 false) emptyStore
  = (Ok 1, store [stored 1 0 60] [] 2).
Proof.
  exact (proj2 (proj2 (NewSegment_unprotected_effect
                         schStorage mediaStorage (request 0 60 false) _ _ _ _
                         eq_refl insert_free_run))
           1 eq_refl).
Defined.

Lemma NewSegment_deletes_only_found_witness :
  Protected (request 30 60 true) = true
  /\ exists start stop res segm,
      intersected schStorage mediaStorage scheduleA (request 30 60 true) start stop res
      /\ Forall (fun s => Protected s = false) res
      /\ In segm res /\ ID segm = Some 1.
Proof.
  apply (NewSegment_deletes_only_found schStorage mediaStorage _ _ _ _ _ 1 scenario_C_run).
  cbn. auto 10.
Defined.

Lemma NewSegment_protected_success_store_witness :
  exists start stop res st1 t1 st2,
    intersected schStorage mediaStorage scheduleA (request 30 60 true) start stop res
    /\ Forall (fun s => Protected s = false) res
    /\ schedule.NewSegment_range schStorage start res scheduleA = (Returned None, st1, t1)
    /\ memstore.SaveSegment (request 30 60 true) st1 = (Ok 2, st2)
    /\ memstore.ProtectSegment 2 st2 = (None, store [stored 2 30 60] [2] 3).
Proof.
  exact (NewSegment_protected_success_store
           schStorage mediaStorage (request 30 60 true) _ _ _ _ eq_refl scenario_C_run).
Defined.

Lemma NewSegment_protected_payload_iff_success_witness :
  In (SendAllSegments (request 30 60 true))
     [ CallMedia 1; CallScheduleCut (at_ 30) (at_ 90); CallIsSegmentProtected 1;
       CallIsSegmentProtected 1; CallDeleteSegment 1;
       CallSaveSegment (request 30 60 true); CallProtectSegment 2;
       NotifyProtected; SendAllSegments (request 30 60 true) ].
Proof.
  exact (proj1 (proj2 (NewSegment_protected_payload_iff_success
                         schStorage mediaStorage (request 30 60 true) _ _ _ _
                         eq_refl scenario_C_run)
                  2 eq_refl)).
Defined.

Lemma clearing_tolerates_absent_witness :
  exists pre,
    (pre = [] \/ pre = [CallIsSegmentProtected 1])
    /\ schedule.NewSegment_range schStorage (at_ 30) [segmentA; segmentC] scheduleC
       = (let '(r, st2, t2) :=
            schedule.NewSegment_range schStorage (at_ 30) [segmentC] scheduleC in
          (r, st2, pre ++ t2)).
Proof.
  apply (proj1 (clearing_tolerates_absent schStorage (at_ 30) segmentA [segmentC]
                  scheduleC 1 eq_refl populated_A)
           storage_ErrSegmentNotFound); reflexivity.
Defined.

Lemma clearing_aborts_on_fault_witness :
  exists before segm after id cause st1 t1,
    [segmentA; segmentC] = before ++ segm :: after
    /\ ID segm = Some id
    /\ schedule.NewSegment_range schStorage (at_ 30) before scheduleACunreadable
       = (Returned None, st1, t1)
    /\ fmt_Errorf opNewSegment (fmt_Errorf opDeleteSegment connectionLost)
       = fmt_Errorf opNewSegment (fmt_Errorf opDeleteSegment cause)
    /\ errors_Is cause storage_ErrSegmentNotFound = false
    /\ ((memstore.IsSegmentProtected id st1 = Err cause
         /\ scheduleACunreadable = st1
         /\ [CallIsSegmentProtected 1] = t1 ++ [CallIsSegmentProtected id])
        \/ (exists isProt,
              memstore.IsSegmentProtected id st1 = Ok isProt
              /\ memstore.DeleteSegment id st1 = (Some cause, scheduleACunreadable)
              /\ [CallIsSegmentProtected 1]
                 = t1 ++ [CallIsSegmentProtected id; CallDeleteSegment id])).
Proof.
  apply (clearing_aborts_on_fault schStorage (at_ 30) [segmentA; segmentC]
           scheduleACunreadable
           (fmt_Errorf opNewSegment (fmt_Errorf opDeleteSegment connectionLost))
           scheduleACunreadable [CallIsSegmentProtected 1]).
  reflexivity.
Defined.

Lemma Segment_error_zero_witness :
  zeroSegment = zeroSegment /\ emptyStore = emptyStore
  /\ ((service_ErrSegmentNotFound = service_ErrSegmentNotFound
       /\ exists cause, memstore_rest.Segment 5 emptyStore = Err cause
                        /\ errors_Is cause storage_ErrSegmentNotFound = true)
      \/ exists cause, service_ErrSegmentNotFound = fmt_Errorf opSegment cause
                       /\ (memstore_rest.Segment 5 emptyStore = Err cause
                           \/ memstore.IsSegmentProtected 5 emptyStore = Err cause)).
Proof.
  apply (Segment_error_zero schStorage memstore_rest.rest 5 emptyStore
           zeroSegment service_ErrSegmentNotFound emptyStore [CallSegment 5]).
  reflexivity.
Defined.

Lemma Segment_success_witness :
  memstore_rest.Segment_ 2 scheduleAC
  = (Returned (setProtected segmentC true, None), scheduleAC,
     [CallSegment 2; Engine (CallIsSegmentProtected 2)]).
Proof.
  apply (proj2 (Segment_success schStorage memstore_rest.rest 2 scheduleAC _ _ _)).
  exists segmentC, true. repeat split; try reflexivity; discriminate.
Defined.

Lemma Segment_absent_flag_not_mapped_witness :
  memstore.DeleteSegment_ 1 scheduleAmissing
  = (Returned (Some service_ErrSegmentNotFound), scheduleAmissing,
     [CallIsSegmentProtected 1])
  /\ exists err,
      memstore_rest.Segment_ 1 scheduleAmissing
      = (Returned (zeroSegment, Some err), scheduleAmissing,
         [CallSegment 1; Engine (CallIsSegmentProtected 1)])
      /\ errors_Is err service_ErrSegmentNotFound = false
      /\ errors_Is err storage_ErrSegmentNotFound = true.
Proof.
  apply (Segment_absent_flag_not_mapped schStorage memstore_rest.rest 1 scheduleAmissing
           segmentA storage_ErrSegmentNotFound);
    try reflexivity; discriminate.
Defined.

Lemma NewSegment_error_sound_witness :
  exists start stop res,
    intersected schStorage mediaStorage scheduleA (request 30 60 false) start stop res
    /\ ((Protected (request 30 60 false) = false /\ res <> [])
        \/ (Protected (request 30 60 false) = true
            /\ exists found, In found res /\ Protected found = true)).
Proof.
  exact (proj2 (proj2 (proj2 (NewSegment_error_sound
                                schStorage mediaStorage _ _ _ _ _ _ scenario_B_run)))
           eq_refl).
Defined.

Lemma MarshalJSON_start_alphabet_witness :
  exists v,
    MarshalJSON halfSecond = Returned (json_Marshal (marshalFields halfSecond v), None)
    /\ startMember halfSecond = Returned v
    /\ Forall (fun c => inAlphabet c = true) (list_ascii_of_string v).
Proof. exact (MarshalJSON_start_alphabet halfSecond halfPast eq_refl). Defined.

Lemma MarshalJSON_start_keeps_wall_clock_witness :
  time.Year halfPast = time.Year halfPastAgain
  /\ time.Month halfPast = time.Month halfPastAgain
  /\ time.Day halfPast = time.Day halfPastAgain
  /\ time.Hour halfPast = time.Hour halfPastAgain
  /\ time.Minute halfPast = time.Minute halfPastAgain
  /\ time.Sec halfPast = time.Sec halfPastAgain
  /\ time.Nanosecond halfPast = time.Nanosecond halfPastAgain
  /\ Z.quot (time.zoneOffset halfPast) 60 = Z.quot (time.zoneOffset halfPastAgain) 60.
Proof.
  apply (MarshalJSON_start_keeps_wall_clock halfSecond halfSecondAgain);
    vm_compute; first [reflexivity | easy].
Defined.

Lemma NewSegment_does_not_panic_witness :
  exists v st' t,
    memstore.NewSegment (request 30 60 true) scheduleA = (Returned v, st', t).
Proof.
  apply (NewSegment_does_not_panic schStorage mediaStorage scheduleA
           (request 30 60 true)); try discriminate.
  - intros id media H. unfold mediaStorage, med_Media, memstore.Media in H.
    cbn [medias scheduleA store find Media_ID media1] in H.
    destruct (1 =? id); [|discriminate]. injection H as <-. discriminate.
  - intros start stop found H.
    unfold schStorage, sch_ScheduleCut, memstore.ScheduleCut in H.
    cbn [cutFault rows scheduleA store filter] in H. injection H as <-.
    destruct (meets start stop segmentA); repeat constructor; discriminate.
Defined.

End FurtherConcrete.
